(** * node-web-crawler: the crawl-control core of [src/app/crawler.ts]

    A shallow embedding of the [Crawler] class: URL canonicalisation
    ([cleanURL]), the visited list, the shared depth counter, the scan loops
    ([readResourceContent], [scanPage]) and the driver ([run]).

    The three collaborators the class calls are not part of the repository:
    axios ([fetchPageContent]) and cheerio (selector lookup) are parameters
    of the development; Node's legacy [url.parse] is a parameter as well, and
    module [NodeUrl] gives a model of it that the concrete examples use.

    A JavaScript string that the class reads (a URL, an attribute value, a
    header value) is held as the list of its code units, each below 256:
    Latin-1 text, which is what Node hands over for a header value.  The
    text of a page, which the class only measures and passes on, is held as
    the bytes of its UTF-8 encoding.  A JavaScript number is an IEEE 754
    double ([spec_float] at precision 53 and maximal exponent 1024). *)

From Stdlib Require Import String Ascii List ZArith Lia Bool Arith.
From Stdlib Require Import Floats.SpecFloat.
Import ListNotations.
Open Scope string_scope.

(** Truthiness of a [string | null | undefined]. *)
Definition truthy (o : option string) : bool :=
  match o with
  | Some (String _ _) => true
  | _ => false
  end.

(* ===================================================================== *)
(** ** Node's legacy [url.parse] *)
(* ===================================================================== *)

(** [url.parse(str)] belongs to Node's standard library, not to the
    repository.  The model below follows the algorithm of [lib/url.js] as it
    stands in the Node 12 and 14 lines, for the one-argument call
    ([parseQueryString] and [slashesDenoteHost] both absent).  Fields that
    [crawler.ts] never reads ([auth], [host], [query], [path], [href]) are
    left out.

    Where the model stops short of the library:
    - the host name goes through [toASCII] (IDNA), which is the identity on
      ASCII host names and is taken as the identity here: a host name with a
      character above 127 is outside the model;
    - text before an at-sign in the host is the [auth] field, which the
      library decodes, throwing on a malformed percent escape; the model
      drops that text and never throws;
    - later releases of Node changed the function: they trim every
      character up to the space, not only white space, skip the fast path
      for text that holds an at-sign, keep more characters in a host name
      and throw for some host names and ports.

    The lemmas on plain URLs further down keep to text without at-sign and
    with a host name of lower-case letters, digits, dots and hyphens; those
    behind the properties of [cleanURL] keep to printable ASCII paths
    ([printablePathChar]), on which these releases agree. *)
Module NodeUrl.

Record Url := mkUrl {
  protocol : option string;
  slashes  : bool;
  hostname : option string;
  port     : option string;
  pathname : option string;
  search   : option string;
  hash     : option string
}.

Local Open Scope list_scope.

Definition chars := list ascii.

Definition code (c : ascii) : nat := nat_of_ascii c.
Definition isCode (n : nat) (c : ascii) : bool := Nat.eqb (code c) n.
Definition between (lo hi : nat) (c : ascii) : bool :=
  Nat.leb lo (code c) && Nat.leb (code c) hi.
Definition one_of (ns : list nat) (c : ascii) : bool :=
  existsb (Nat.eqb (code c)) ns.

(* character codes, as named in lib/internal/constants.js *)
Definition CHAR_TAB := 9.
Definition CHAR_LINE_FEED := 10.
Definition CHAR_FORM_FEED := 12.
Definition CHAR_CARRIAGE_RETURN := 13.
Definition CHAR_SPACE := 32.
Definition CHAR_DOUBLE_QUOTE := 34.
Definition CHAR_HASH := 35.
Definition CHAR_PERCENT := 37.
Definition CHAR_SINGLE_QUOTE := 39.
Definition CHAR_PLUS := 43.
Definition CHAR_HYPHEN_MINUS := 45.
Definition CHAR_DOT := 46.
Definition CHAR_FORWARD_SLASH := 47.
Definition CHAR_COLON := 58.
Definition CHAR_SEMICOLON := 59.
Definition CHAR_LEFT_ANGLE_BRACKET := 60.
Definition CHAR_RIGHT_ANGLE_BRACKET := 62.
Definition CHAR_QUESTION_MARK := 63.
Definition CHAR_AT := 64.
Definition CHAR_LEFT_SQUARE_BRACKET := 91.
Definition CHAR_BACKWARD_SLASH := 92.
Definition CHAR_RIGHT_SQUARE_BRACKET := 93.
Definition CHAR_CIRCUMFLEX_ACCENT := 94.
Definition CHAR_UNDERSCORE := 95.
Definition CHAR_GRAVE_ACCENT := 96.
Definition CHAR_LEFT_CURLY_BRACKET := 123.
Definition CHAR_VERTICAL_LINE := 124.
Definition CHAR_RIGHT_CURLY_BRACKET := 125.
Definition CHAR_NO_BREAK_SPACE := 160.

Definition slash : ascii := ascii_of_nat CHAR_FORWARD_SLASH.

Definition is_digit := between 48 57.
Definition is_upper := between 65 90.
Definition is_lower := between 97 122.

(* the capital letters of Latin-1 beyond ASCII; 215 is the multiplication
   sign *)
Definition is_upper_latin1 (c : ascii) : bool :=
  between 192 222 c && negb (isCode 215 c).

(* [String.prototype.toLowerCase], one code unit at a time *)
Definition to_lower (c : ascii) : ascii :=
  if is_upper c || is_upper_latin1 c then ascii_of_nat (code c + 32) else c.

Definition toLowerCase (l : chars) : chars := map to_lower l.

Fixpoint dropWhile (p : ascii -> bool) (l : chars) : chars :=
  match l with
  | [] => []
  | c :: t => if p c then dropWhile p t else l
  end.

Fixpoint takeWhile (p : ascii -> bool) (l : chars) : chars :=
  match l with
  | [] => []
  | c :: t => if p c then c :: takeWhile p t else []
  end.

(** *** Trimming and backslash conversion (the first loop of [parse]) *)

(* the parser's own white space test; the seventh character it trims, the
   byte order mark U+FEFF, is not a Latin-1 character *)
Definition isWs : ascii -> bool :=
  one_of [CHAR_SPACE; CHAR_TAB; CHAR_CARRIAGE_RETURN; CHAR_LINE_FEED;
          CHAR_FORM_FEED; CHAR_NO_BREAK_SPACE].

Definition trim (l : chars) : chars :=
  rev (dropWhile isWs (rev (dropWhile isWs l))).

(* back slashes before the first question mark or hash become forward
   slashes *)
Fixpoint convertBackslashes (l : chars) : chars :=
  match l with
  | [] => []
  | c :: t =>
      if isCode CHAR_HASH c || isCode CHAR_QUESTION_MARK c then l
      else (if isCode CHAR_BACKWARD_SLASH c then slash else c)
             :: convertBackslashes t
  end.

Definition hasHash (l : chars) : bool := existsb (isCode CHAR_HASH) l.

(** *** [simplePathPattern]: one slash, or two slashes not followed by a
    third, then no white space at all; the text from the first question mark
    on is the second group *)

(* the white space class of regular expressions, on Latin-1 *)
Definition regexp_space : ascii -> bool :=
  one_of [9; 10; 11; 12; 13; 32; CHAR_NO_BREAK_SPACE].

Definition not_question (c : ascii) : bool := negb (isCode CHAR_QUESTION_MARK c).

(* [Some (pathname, search)] when the pattern matches *)
Definition simplePath (rest : chars) : option (chars * chars) :=
  match rest with
  | c :: t =>
      let lookahead_ok :=
        match t with
        | c1 :: c2 :: _ =>
            negb (isCode CHAR_FORWARD_SLASH c1 && isCode CHAR_FORWARD_SLASH c2)
        | _ => true
        end in
      if isCode CHAR_FORWARD_SLASH c && lookahead_ok
         && forallb (fun x => negb (regexp_space x)) rest
      then Some (takeWhile not_question rest, dropWhile not_question rest)
      else None
  | [] => None
  end.

(** *** [protocolPattern]: a non-empty run of letters, digits, dot, plus and
    minus, followed by a colon *)

Definition is_proto_char (c : ascii) : bool :=
  is_lower c || is_upper c || is_digit c
  || one_of [CHAR_DOT; CHAR_PLUS; CHAR_HYPHEN_MINUS] c.

(* [Some (proto, rest')]: the matched text with its colon, and what follows *)
Definition protocolPattern (rest : chars) : option (chars * chars) :=
  let name := takeWhile is_proto_char rest in
  match name, dropWhile is_proto_char rest with
  | _ :: _, c :: t => if isCode CHAR_COLON c then Some (name ++ [c], t) else None
  | _, _ => None
  end.

(** *** [hostPattern]: two slashes, a non-empty run without at-sign or slash,
    an at-sign, and one more character that is neither *)

Definition not_at_slash (c : ascii) : bool :=
  negb (isCode CHAR_AT c || isCode CHAR_FORWARD_SLASH c).

Definition hostPattern (rest : chars) : bool :=
  match rest with
  | c1 :: c2 :: t =>
      isCode CHAR_FORWARD_SLASH c1 && isCode CHAR_FORWARD_SLASH c2 &&
      match takeWhile not_at_slash t, dropWhile not_at_slash t with
      | _ :: _, a :: b :: _ => isCode CHAR_AT a && not_at_slash b
      | _, _ => false
      end
  | _ => false
  end.

Definition str (l : chars) : string := string_of_list_ascii l.

Definition hostlessProtocol (p : chars) : bool :=
  existsb (String.eqb (str p)) ["javascript"; "javascript:"].
Definition unsafeProtocol := hostlessProtocol.
Definition slashedProtocol (p : chars) : bool :=
  existsb (String.eqb (str p))
    ["http"; "http:"; "https"; "https:"; "ftp"; "ftp:"; "gopher"; "gopher:";
     "file"; "file:"; "ws"; "ws:"; "wss"; "wss:"].

(** *** Locating the host *)

(* characters never allowed in a host name *)
Definition nonHostChar : ascii -> bool :=
  one_of [CHAR_TAB; CHAR_LINE_FEED; CHAR_CARRIAGE_RETURN; CHAR_SPACE;
          CHAR_DOUBLE_QUOTE; CHAR_PERCENT; CHAR_SINGLE_QUOTE; CHAR_SEMICOLON;
          CHAR_LEFT_ANGLE_BRACKET; CHAR_RIGHT_ANGLE_BRACKET;
          CHAR_BACKWARD_SLASH; CHAR_CIRCUMFLEX_ACCENT; CHAR_GRAVE_ACCENT;
          CHAR_LEFT_CURLY_BRACKET; CHAR_VERTICAL_LINE;
          CHAR_RIGHT_CURLY_BRACKET].
Definition hostEndingChar : ascii -> bool :=
  one_of [CHAR_HASH; CHAR_FORWARD_SLASH; CHAR_QUESTION_MARK].

(* the scan for [atSign] and [nonHost]; [None] stands for -1.
   It stops at the first host-ending character. *)
Fixpoint scanHost (l : chars) (i : nat) (atSign nonHost : option nat)
  : option nat * option nat :=
  match l with
  | [] => (atSign, nonHost)
  | c :: t =>
      if nonHostChar c then
        scanHost t (S i) atSign
                 (match nonHost with None => Some i | _ => nonHost end)
      else if hostEndingChar c then
        (atSign, match nonHost with None => Some i | _ => nonHost end)
      else if isCode CHAR_AT c then scanHost t (S i) (Some i) None
      else scanHost t (S i) atSign nonHost
  end.

Definition slice (from to : nat) (l : chars) : chars :=
  firstn (to - from) (skipn from l).

(** *** [parseHost]: [portPattern] is a colon followed by digits up to the
    end of the host *)

(* [(hostname, port)]; the port text without its colon *)
Definition parseHost (host : chars) : option chars * option chars :=
  let digits := rev (takeWhile is_digit (rev host)) in
  let before := rev (dropWhile is_digit (rev host)) in
  let (h, p) :=
    match rev before with
    | c :: front =>
        if isCode CHAR_COLON c
        then (rev front, match digits with [] => None | _ => Some digits end)
        else (host, None)
    | [] => (host, None)
    end in
  (match h with [] => None | _ => Some h end, p).

(** *** [getHostname]: cut the host name at its first invalid character *)

Definition validHostChar (c : ascii) : bool :=
  is_lower c || isCode CHAR_DOT c || is_upper c || is_digit c
  || isCode CHAR_HYPHEN_MINUS c || isCode CHAR_PLUS c || isCode CHAR_UNDERSCORE c
  || Nat.ltb 127 (code c).

Definition getHostname (rest hostname : chars) : chars * chars :=
  match dropWhile validHostChar hostname with
  | [] => (hostname, rest)
  | bad => (takeWhile validHostChar hostname, slash :: bad ++ rest)
  end.

Definition hostnameMaxLen := 255.

(* IDNA: the identity on ASCII host names, the only ones modelled *)
Definition toASCII (hostname : chars) : chars := hostname.

(** *** [autoEscapeStr] *)

Definition escapedCode (c : ascii) : option string :=
  match code c with
  | 9 => Some "%09" | 10 => Some "%0A" | 13 => Some "%0D"
  | 32 => Some "%20" | 34 => Some "%22" | 39 => Some "%27"
  | 60 => Some "%3C" | 62 => Some "%3E" | 92 => Some "%5C"
  | 94 => Some "%5E" | 96 => Some "%60" | 123 => Some "%7B"
  | 124 => Some "%7C" | 125 => Some "%7D"
  | _ => None
  end.

Definition autoEscapeStr (rest : chars) : chars :=
  flat_map (fun c => match escapedCode c with
                     | Some e => list_ascii_of_string e
                     | None => [c]
                     end) rest.

Definition nonEmpty (l : chars) : option string :=
  match l with [] => None | _ => Some (str l) end.

(** *** The host section of [parse] *)

(* [(hostname, port, rest')] once a host is known to be present *)
Definition hostSection (rest : chars) : string * option string * chars :=
  let '(atSign, nonHost) := scanHost rest 0 None None in
  let start := match atSign with Some a => S a | None => 0 end in
  let '(host, rest1) :=
    match nonHost with
    | None => (skipn start rest, [])
    | Some n => (slice start n rest, skipn n rest)
    end in
  let '(hn, port) := parseHost host in
  let hostname := match hn with Some h => h | None => [] end in
  let ipv6Hostname :=
    match hostname with
    | c :: _ => isCode CHAR_LEFT_SQUARE_BRACKET c
                && isCode CHAR_RIGHT_SQUARE_BRACKET (last hostname c)
    | [] => false
    end in
  let '(hostname1, rest2) :=
    if ipv6Hostname then (hostname, rest1) else getHostname rest1 hostname in
  let hostname2 :=
    if Nat.ltb hostnameMaxLen (List.length hostname1) then []
    else toLowerCase hostname1 in
  let hostname2 := if ipv6Hostname then hostname2 else toASCII hostname2 in
  if ipv6Hostname then
    (str (removelast (tl hostname2)), option_map str port,
     match rest2 with
     | c :: _ => if isCode CHAR_FORWARD_SLASH c then rest2 else slash :: rest2
     | [] => [slash]
     end)
  else (str hostname2, option_map str port, rest2).

(** *** [Url.prototype.parse] *)

Definition parse (url : string) : Url :=
  let rest := convertBackslashes (trim (list_ascii_of_string url)) in
  match (if hasHash rest then None else simplePath rest) with
  | Some (p, q) =>
      (* the fast path: a bare path with an optional query *)
      mkUrl None false None None (Some (str p)) (nonEmpty q) None
  | None =>
      let '(proto, rest) :=
        match protocolPattern rest with
        | Some (p, r) => (Some p, r)
        | None => (None, rest)
        end in
      let lowerProto := option_map toLowerCase proto in
      let hostless :=
        match lowerProto with Some p => hostlessProtocol p | None => false end in
      let doubleSlash :=
        match rest with
        | c1 :: c2 :: _ => isCode CHAR_FORWARD_SLASH c1 && isCode CHAR_FORWARD_SLASH c2
        | _ => false
        end in
      let slashes :=
        match proto with
        | Some _ => doubleSlash
        | None => hostPattern rest && doubleSlash
        end in
      let thisSlashes := slashes && negb hostless in
      let rest := if thisSlashes then skipn 2 rest else rest in
      let hasHost :=
        negb hostless &&
        (slashes || match proto with
                    | Some p => negb (slashedProtocol p)
                    | None => false
                    end) in
      let '(hostname, port, rest) :=
        if hasHost
        then let '(h, p, r) := hostSection rest in (Some h, p, r)
        else (None, None, rest) in
      let rest :=
        match lowerProto with
        | Some p => if unsafeProtocol p then rest else autoEscapeStr rest
        | None => autoEscapeStr rest
        end in
      let beforeHash := takeWhile (fun c => negb (isCode CHAR_HASH c)) rest in
      let hash := nonEmpty (dropWhile (fun c => negb (isCode CHAR_HASH c)) rest) in
      let search := nonEmpty (dropWhile not_question beforeHash) in
      let pathname := nonEmpty (takeWhile not_question beforeHash) in
      let pathname :=
        match lowerProto with
        | Some p =>
            if slashedProtocol p && truthy hostname && negb (truthy pathname)
            then Some "/" else pathname
        | None => pathname
        end in
      mkUrl (option_map str lowerProto) thisSlashes hostname port
            pathname search hash
  end.

(** *** Plain URLs

    Character classes for the lemmas on URLs without special characters: a
    plain host is made of lower-case letters, digits, dots and hyphens; a
    plain path has no white space, question mark, hash, at-sign or
    character that [autoEscapeStr] rewrites.  A plain path may still hold
    control characters, which later releases of Node trim at the ends of
    the text; a printable path is a plain path of printable ASCII
    characters, from the exclamation mark to the tilde. *)
Definition plainHostChar (c : ascii) : bool :=
  is_lower c || is_digit c || isCode CHAR_DOT c || isCode CHAR_HYPHEN_MINUS c.

Definition plainPathChar (c : ascii) : bool :=
  negb (regexp_space c || isCode CHAR_QUESTION_MARK c || isCode CHAR_HASH c
        || isCode CHAR_AT c
        || match escapedCode c with Some _ => true | None => false end).

Definition printablePathChar (c : ascii) : bool :=
  between 33 126 c && plainPathChar c.

Definition httpPrefix : chars := list_ascii_of_string "http://".

Definition questionMark : ascii := ascii_of_nat CHAR_QUESTION_MARK.

Definition hashMark : ascii := ascii_of_nat CHAR_HASH.

Definition colon : ascii := ascii_of_nat CHAR_COLON.

End NodeUrl.

(* ===================================================================== *)
(** ** Data model *)
(* ===================================================================== *)

(** A JavaScript number. *)
Definition number : Type := spec_float.

(** Modelled from the spec: the interface declarations imported from
    [src/model] ([CrawlerOptions], [CrawlerResources],
    [CrawlerDownloadInfo]) are not among the sources; the fields are the
    ones [crawler.ts] reads and writes, with the types the spec gives them
    (section 3: CrawlConfig, ResourceRule, DownloadRecord). *)
Record CrawlerOptions := mkOptions {
  maxDepth : Z;
  includeAssets : bool
}.

Record CrawlerResources := mkResource {
  selector : string;
  attribute : string
}.

Record CrawlerDownloadInfo := mkInfo {
  resource : string;
  size : number
}.

Definition LINK_RESOURCE : CrawlerResources := mkResource "a" "href".

(* the double quote character *)
Definition dquote : string := String (ascii_of_nat 34) EmptyString.

Definition ASSET_RESOURCES : list CrawlerResources :=
  [ mkResource "img" "src";
    mkResource "script" "src";
    mkResource ("link[rel=" ++ dquote ++ "stylesheet" ++ dquote ++ "]") "href" ].

Definition DEFAULT_OPTIONS : CrawlerOptions := mkOptions 10 false.

(** The read-only fields of a [Crawler] instance. *)
Record Crawler := mkCrawler {
  URL : string;
  HOSTNAME : string;
  PROTOCOL : option string;
  PORT : option string;
  CRAWLER_OPTIONS : CrawlerOptions
}.

(** [response.data].  With its default settings axios hands the body over
    as a string unless the text of the body is JSON, which it parses: the
    value is then whatever the JSON text denotes, a string only when that
    text is a string literal.  [Text utf8] is a string, held as the bytes
    of its UTF-8 encoding; [Parsed source] is a value that is not a string
    (an object, an array, a number, a boolean or null), parsed from the
    body [source]. *)
Inductive Data :=
| Text (utf8 : string)
| Parsed (source : string).

(** What [fetchPageContent] hands back: the axios response, or the error
    object its [catch] handler returns in place of one (its [status] is
    undefined). *)
Record HttpResponse := mkResponse {
  status : Z;
  content_length : option string;    (* headers['content-length'] *)
  data : Data
}.

Inductive Response :=
| Reply (r : HttpResponse)
| ErrorValue.

(** One call of [fetchPageContent], with the value [currentDepth] had when
    it was issued.  The list of requests is a ghost field: the class keeps
    no such log. *)
Record Request := mkRequest {
  req_url : string;
  req_depth : Z
}.

(** The mutable fields of the instance. *)
Record CrawlerState := mkState {
  currentDepth : Z;
  scannedHosts : list string;
  scannedResourceInfo : list CrawlerDownloadInfo;
  requests : list Request
}.

Definition initialState : CrawlerState := mkState 0 [] [] [].

(** An [async] method observed under a bound on the nesting of [scanPage]
    calls: it has run to completion ([Settled]), it has thrown, so that its
    promise is rejected ([Rejected]), or it is still inside a call beyond
    the bound ([Unfinished]); each carries the fields as they are at that
    moment. *)
Inductive Async :=
| Settled (st : CrawlerState)
| Rejected (st : CrawlerState)
| Unfinished (st : CrawlerState).

Definition stateOf (a : Async) : CrawlerState :=
  match a with Settled st | Rejected st | Unfinished st => st end.

(** [await a] followed by [k]: a rejection of [a] is thrown at the [await],
    and no method of the class catches it. *)
Definition await (a : Async) (k : CrawlerState -> Async) : Async :=
  match a with
  | Settled st => k st
  | Rejected st => Rejected st
  | Unfinished st => Unfinished st
  end.

(** The method is over, one way or the other. *)
Definition finished (a : Async) : bool :=
  match a with
  | Unfinished _ => false
  | _ => true
  end.

Notation "'do' st <- a ;; k" := (await a (fun st => k))
  (at level 10, st name, a at level 100, k at level 200).

(** What the promise returned by [run] does: it is resolved with the result
    list, it is never settled (the seed request was unsuccessful and no
    branch calls [resolve], or the scan was rejected and the callback that
    calls [resolve] is not run), or the traversal is still under way at the
    bound. *)
Inductive Outcome :=
| Resolved (st : CrawlerState)
| NeverSettled (st : CrawlerState)
| Running (st : CrawlerState).

Definition finalState (o : Outcome) : CrawlerState :=
  match o with Resolved st | NeverSettled st | Running st => st end.

(* ===================================================================== *)
(** ** JavaScript value helpers *)
(* ===================================================================== *)

(** A [string | null] inside a template literal. *)
Definition template (o : option string) : string :=
  match o with
  | Some s => s
  | None => "null"
  end.

Definition orEmpty (o : option string) : string :=
  match o with
  | Some s => s
  | None => ""
  end.

Definition includes (l : list string) (x : string) : bool :=
  existsb (String.eqb x) l.

(** *** Numbers *)

Definition NaN : number := S754_nan.

(** An integer as a number: the nearest double. *)
Definition numberOfZ (m : Z) : number := binary_normalize 53 1024 m 0 false.

(** ToBoolean on a number: NaN and the two zeros are falsy. *)
Definition falsy (n : number) : bool :=
  match n with
  | S754_nan | S754_zero _ => true
  | _ => false
  end.

(** [n || 0] on a number that is an integer, as a byte length is. *)
Definition orZero (n : Z) : Z := if Z.eqb n 0 then 0 else n.

(** The double nearest to [m * 10^e], ties to even, for [m >= 0], with the
    sign [negative]. *)
Definition decimalNumber (negative : bool) (m e : Z) : number :=
  match m with
  | Z0 => S754_zero negative
  | _ =>
      if Z.leb 0 e
      then binary_normalize 53 1024 (cond_Zopp negative (m * 10 ^ e)) 0 false
      else
        let '(q, e', l) := SFdiv_core_binary 53 1024 m 0 (10 ^ (- e)) 0 in
        binary_round_aux 53 1024 negative q e' l
  end.

(** StringToNumber (ECMA-262, 7.1.4.1): what unary plus does to a string.
    The value of a decimal literal is rounded to the nearest double, as V8
    does for any number of digits. *)
Module StringToNumber.

Import NodeUrl.
Local Open Scope list_scope.

(* white space and line terminators, on Latin-1 *)
Definition isStrWhiteSpace : ascii -> bool :=
  one_of [9; 10; 11; 12; 13; 32; CHAR_NO_BREAK_SPACE].

Definition trim (l : chars) : chars :=
  rev (dropWhile isStrWhiteSpace (rev (dropWhile isStrWhiteSpace l))).

Definition digitOf (c : ascii) : option Z :=
  if is_digit c then Some (Z.of_nat (code c - 48))
  else if between 97 102 c then Some (Z.of_nat (code c - 87))
  else if between 65 70 c then Some (Z.of_nat (code c - 55))
  else None.

(* the value of a run of digits in base [radix]; [None] when a character
   is not a digit of that base *)
Fixpoint digits (radix acc : Z) (l : chars) : option Z :=
  match l with
  | [] => Some acc
  | c :: t =>
      match digitOf c with
      | Some d => if Z.ltb d radix then digits radix (radix * acc + d) t else None
      | None => None
      end
  end.

(* the letter after the leading zero of a hexadecimal, octal or binary
   literal *)
Definition radixOf (c : ascii) : option Z :=
  if one_of [120; 88] c then Some 16%Z
  else if one_of [111; 79] c then Some 8%Z
  else if one_of [98; 66] c then Some 2%Z
  else None.

(* an optional sign: [true] for the minus *)
Definition signed (l : chars) : bool * chars :=
  match l with
  | c :: t =>
      if isCode CHAR_HYPHEN_MINUS c then (true, t)
      else if isCode CHAR_PLUS c then (false, t)
      else (false, l)
  | [] => (false, l)
  end.

(* nothing, or the letter e, an optional sign and digits up to the end *)
Definition exponentPart (l : chars) : option Z :=
  match l with
  | [] => Some 0%Z
  | c :: t =>
      if one_of [101; 69] c then
        let (negative, ds) := signed t in
        match ds with
        | [] => None
        | _ => option_map (cond_Zopp negative) (digits 10 0 ds)
        end
      else None
  end.

Definition unsignedDecimal (negative : bool) (l : chars) : number :=
  if String.eqb (str l) "Infinity" then S754_infinity negative
  else
    let int := takeWhile is_digit l in
    let rest := dropWhile is_digit l in
    let '(frac, rest) :=
      match rest with
      | c :: t =>
          if isCode CHAR_DOT c
          then (takeWhile is_digit t, dropWhile is_digit t)
          else ([], rest)
      | [] => ([], rest)
      end in
    match int ++ frac with
    | [] => NaN
    | ds =>
        match digits 10 0 ds, exponentPart rest with
        | Some m, Some e =>
            decimalNumber negative m (e - Z.of_nat (List.length frac))
        | _, _ => NaN
        end
    end.

(* the number a run of decimal digits denotes *)
Definition decimalValue (l : chars) : Z :=
  fold_left (fun acc c => 10 * acc + Z.of_nat (code c - 48))%Z l 0%Z.

Definition decimalLiteral (l : chars) : number :=
  let (negative, l) := signed l in unsignedDecimal negative l.

Definition parse (s : string) : number :=
  match trim (list_ascii_of_string s) with
  | [] => S754_zero false
  | [c] => decimalLiteral [c]
  | z :: x :: ds =>
      match (if isCode 48 z then radixOf x else None) with
      | Some radix =>
          match ds, digits radix 0 ds with
          | _ :: _, Some m => numberOfZ m
          | _, _ => NaN
          end
      | None => decimalLiteral (z :: x :: ds)
      end
  end.

End StringToNumber.

(** Unary plus on a header value: [undefined], for an absent header, is
    NaN. *)
Definition toNumber (v : option string) : number :=
  match v with
  | Some s => StringToNumber.parse s
  | None => NaN
  end.

(** [Buffer.byteLength(content, 'utf8')]; [None] when it throws, as it does
    for a value that is neither a string nor a buffer. *)
Definition byteLength (content : Data) : option Z :=
  match content with
  | Text utf8 => Some (Z.of_nat (String.length utf8))
  | Parsed _ => None
  end.

(* ===================================================================== *)
(** ** The class *)
(* ===================================================================== *)

Section CrawlerClass.

(** [url.parse] *)
Variable url_parse : string -> NodeUrl.Url.

(** [new Crawler(path, options)]; [None] when the constructor throws. *)
Definition newCrawler (path : string) (options : option CrawlerOptions)
  : option Crawler :=
  let pathInfo := url_parse path in
  match NodeUrl.hostname pathInfo with
  | None => None
  | Some hostname =>
      Some (mkCrawler path hostname (NodeUrl.protocol pathInfo)
              (NodeUrl.port pathInfo)
              (match options with
               | Some o => o
               | None => DEFAULT_OPTIONS
               end))
  end.

Variable self : Crawler.

Definition cleanURL (path : option string) : option string :=
  if negb (truthy path) then None
  else
    let pathInfo := url_parse (orEmpty path) in
    let '(hostname, protocol, port) :=
      if truthy (NodeUrl.hostname pathInfo)
      then (NodeUrl.hostname pathInfo, NodeUrl.protocol pathInfo,
            NodeUrl.port pathInfo)
      else (Some (HOSTNAME self), PROTOCOL self, PORT self) in
    Some (template protocol ++ "//" ++ template hostname
          ++ (if truthy port then orEmpty port else "")
          ++ (if truthy (NodeUrl.pathname pathInfo)
                 && negb (String.eqb (orEmpty (NodeUrl.pathname pathInfo)) "/")
              then orEmpty (NodeUrl.pathname pathInfo) else "")).

Definition isSuccessResponse (response : Response) : bool :=
  match response with
  | Reply r => Z.leb 200 (status r) && Z.ltb (status r) 300
  | ErrorValue => false
  end.

(** The size recorded for a response:
    [+headers['content-length'] || Buffer.byteLength(content, 'utf8') || 0].
    [Buffer.byteLength] is evaluated only when the header gives a falsy
    number; [None] when it throws. *)
Definition downloadSize (r : HttpResponse) : option number :=
  let fromHeader := toNumber (content_length r) in
  if falsy fromHeader
  then option_map (fun n => numberOfZ (orZero n)) (byteLength (data r))
  else Some fromHeader.

(** axios: the answer to the [n]-th request of the run, for a URL. *)
Variable axios_get : nat -> string -> Response.

(** cheerio: the values of [attribute] on the elements of [content] that
    match [selector], in document order; [None] where the attribute is
    missing.  [cheerio.load] takes whatever [response.data] is: the
    collaborator is a total function, and what it finds in a value that is
    not a string is left to the parameter. *)
Variable cheerio : Data -> string -> string -> list (option string).

Definition fetchPageContent (url : string) (st : CrawlerState)
  : Response * CrawlerState :=
  (axios_get (List.length (requests st)) url,
   mkState (currentDepth st) (scannedHosts st) (scannedResourceInfo st)
           (requests st ++ [mkRequest url (currentDepth st)])).

Definition pushHost (currentHost : string) (st : CrawlerState) : CrawlerState :=
  mkState (currentDepth st) (scannedHosts st ++ [currentHost])
          (scannedResourceInfo st) (requests st).

Definition incrementDepth (st : CrawlerState) : CrawlerState :=
  mkState (currentDepth st + 1) (scannedHosts st) (scannedResourceInfo st)
          (requests st).

Definition pushInfo (info : CrawlerDownloadInfo) (st : CrawlerState)
  : CrawlerState :=
  mkState (currentDepth st) (scannedHosts st) (scannedResourceInfo st ++ [info])
          (requests st).

Definition atMaxDepth (st : CrawlerState) : bool :=
  Z.eqb (currentDepth st) (maxDepth (CRAWLER_OPTIONS self)).

Definition isRoot (path : option string) : bool :=
  match path with
  | Some p => String.eqb p "/"
  | None => false
  end.

(** The candidate passes [currentHost && scannedHosts.includes(currentHost)
    === false]. *)
Definition admissible (currentHost : option string) (st : CrawlerState) : bool :=
  truthy currentHost && negb (includes (scannedHosts st) (orEmpty currentHost)).

(** Lines 188-195: the host is pushed, the depth is incremented for a link,
    and the page is requested. *)
Definition admitAndFetch (currentHost : string) (incrDepth : bool)
  (st : CrawlerState) : Response * CrawlerState :=
  let st := pushHost currentHost st in
  let st := if incrDepth then incrementDepth st else st in
  fetchPageContent currentHost st.

Definition mayDescend (st : CrawlerState) : bool :=
  Z.eqb (currentDepth st) 0
  || Z.leb (currentDepth st) (maxDepth (CRAWLER_OPTIONS self)).

Section Loops.

(** the recursive call [this.scanPage] *)
Variable scanPage : Data -> CrawlerState -> Async.

(** The inner loop of [readResourceContent], over the attribute values of
    the elements one selector matched. *)
Fixpoint selectorLoop (incrDepth : bool) (paths : list (option string))
  (st : CrawlerState) : Async :=
  match paths with
  | [] => Settled st
  | path :: rest =>
      if atMaxDepth st then Settled st                       (* break *)
      else if isRoot path then selectorLoop incrDepth rest st   (* continue *)
      else
        let currentHost := cleanURL path in
        if admissible currentHost st then
          let (response, st) :=
            admitAndFetch (orEmpty currentHost) incrDepth st in
          match response with
          | Reply r =>
              if isSuccessResponse response then
                match downloadSize r with
                | Some size =>
                    let st := pushInfo (mkInfo (orEmpty currentHost) size) st in
                    if mayDescend st then
                      do st <- scanPage (data r) st ;;
                      selectorLoop incrDepth rest st
                    else selectorLoop incrDepth rest st
                | None => Rejected st       (* line 206 throws *)
                end
              else selectorLoop incrDepth rest st
          | ErrorValue => selectorLoop incrDepth rest st
          end
        else selectorLoop incrDepth rest st
  end.

Fixpoint readResourceContent (content : Data)
  (resources : list CrawlerResources) (incrDepth : bool) (st : CrawlerState)
  : Async :=
  match resources with
  | [] => Settled st
  | resource :: rest =>
      do st <- selectorLoop incrDepth
                 (cheerio content (selector resource) (attribute resource)) st ;;
      readResourceContent content rest incrDepth st
  end.

Definition scanResourceAsset (content : Data) (st : CrawlerState) : Async :=
  readResourceContent content ASSET_RESOURCES false st.

Definition scanResourceLink (content : Data) (st : CrawlerState) : Async :=
  readResourceContent content [LINK_RESOURCE] true st.

End Loops.

(** [scanPage], unfolded to at most [fuel] nested calls. *)
Fixpoint scanPage (fuel : nat) (content : Data) (st : CrawlerState) : Async :=
  match fuel with
  | O => Unfinished st
  | S fuel =>
      do st <- (if includeAssets (CRAWLER_OPTIONS self)
                then scanResourceAsset (scanPage fuel) content st
                else Settled st) ;;
      scanResourceLink (scanPage fuel) content st
  end.

(** [run]: [resolve] is called only in the success branch, by the callback
    that follows the scan; a rejected scan skips that callback. *)
Definition run (fuel : nat) : Outcome :=
  let (response, st) := fetchPageContent (URL self) initialState in
  match response with
  | Reply r =>
      if isSuccessResponse response then
        match scanPage fuel (data r) st with
        | Settled st => Resolved st
        | Rejected st => NeverSettled st
        | Unfinished st => Running st
        end
      else NeverSettled st
  | ErrorValue => NeverSettled st
  end.

(** The value the promise is resolved with, if it is. *)
Definition result (o : Outcome) : option (list CrawlerDownloadInfo) :=
  match o with
  | Resolved st => Some (scannedResourceInfo st)
  | _ => None
  end.

(** *** The traversal as a sequence of visits *)

(** The fields right after the seed request. *)
Definition seedState : CrawlerState :=
  mkState 0 [] [] [mkRequest (URL self) 0].

(** The records one response adds for a host: one on success, unless the
    size computation throws. *)
Definition recordsOf (currentHost : string) (response : Response)
  : list CrawlerDownloadInfo :=
  match response with
  | Reply r =>
      if isSuccessResponse response then
        match downloadSize r with
        | Some size => [mkInfo currentHost size]
        | None => []
        end
      else []
  | ErrorValue => []
  end.

(** The fields after one admitted candidate has been requested and, on
    success, recorded (lines 188-207), before any nested scan. *)
Definition visit (currentHost : string) (incrDepth : bool) (st : CrawlerState)
  : CrawlerState :=
  let (response, st) := admitAndFetch currentHost incrDepth st in
  match response with
  | Reply r =>
      if isSuccessResponse response then
        match downloadSize r with
        | Some size => pushInfo (mkInfo currentHost size) st
        | None => st
        end
      else st
  | ErrorValue => st
  end.

(** What the loop does next, once a candidate has been visited: it scans
    the body (line 210), goes on to the next match, or has thrown (line
    206). *)
Inductive Step :=
| ScanBody (content : Data)
| NextMatch
| Throw.

Definition afterVisit (response : Response) (st : CrawlerState) : Step :=
  match response with
  | Reply r =>
      if isSuccessResponse response then
        match downloadSize r with
        | Some _ => if mayDescend st then ScanBody (data r) else NextMatch
        | None => Throw
        end
      else NextMatch
  | ErrorValue => NextMatch
  end.

(** The last request was answered with success, and the size computation
    for the answer throws. *)
Definition thrown (st : CrawlerState) : Prop :=
  exists before u depth r,
    requests st = (before ++ [mkRequest u depth])%list
    /\ axios_get (List.length before) u = Reply r
    /\ isSuccessResponse (Reply r) = true
    /\ downloadSize r = None.

(** [visits st st']: [st'] comes from [st] by visiting candidates that were
    not in the visited list, each behind an open depth gate. *)
Inductive visits (st : CrawlerState) : CrawlerState -> Prop :=
| visits_refl : visits st st
| visits_step st' u b :
    visits st st' ->
    includes (scannedHosts st') u = false ->
    atMaxDepth st' = false ->
    visits st (visit u b st').

(** The depth counter and every depth a request was issued at lie between
    [lo] and [hi]. *)
Definition bounded (lo hi : Z) (st : CrawlerState) : Prop :=
  (lo <= currentDepth st <= hi)%Z
  /\ Forall (fun r => (lo <= req_depth r <= hi)%Z) (requests st).

(** [visitsWhere P st st']: as [visits], with every visited candidate and
    its [incrDepth] flag satisfying [P]. *)
Inductive visitsWhere (P : string -> bool -> Prop) (st : CrawlerState)
  : CrawlerState -> Prop :=
| visitsWhere_refl : visitsWhere P st st
| visitsWhere_step st' u b :
    visitsWhere P st st' ->
    P u b ->
    includes (scannedHosts st') u = false ->
    atMaxDepth st' = false ->
    visitsWhere P st (visit u b st').

(** What [scanPage] visits: the canonical form of a candidate other than
    "/", with the depth flag off only when assets are included. *)
Definition scanned (u : string) (incrDepth : bool) : Prop :=
  (incrDepth = false -> includeAssets (CRAWLER_OPTIONS self) = true)
  /\ exists path, isRoot path = false /\ cleanURL path = Some u.

(** A candidate the loop passes over: it is "/", or its canonical form is
    undefined or already in the visited list. *)
Definition spent (path : option string) (st : CrawlerState) : bool :=
  isRoot path || negb (admissible (cleanURL path) st).

(** *** Where candidates come from *)

(** [content] is the body of a successful answer to one of the first [k]
    requests made so far. *)
Definition fetched (content : Data) (k : nat) (st : CrawlerState) : Prop :=
  exists n url depth r,
    (n < k)%nat
    /\ nth_error (requests st) n = Some (mkRequest url depth)
    /\ axios_get n url = Reply r
    /\ isSuccessResponse (Reply r) = true
    /\ data r = content.

(** The rules [scanPage] looks up, by the flag it passes with them. *)
Definition rulesOf (incrDepth : bool) : list CrawlerResources :=
  if incrDepth then [LINK_RESOURCE]
  else if includeAssets (CRAWLER_OPTIONS self) then ASSET_RESOURCES
  else [].

(** [u] is the canonical form of a value other than "/" that cheerio found,
    under one of the rules, on a body fetched by one of the first [k]
    requests. *)
Definition found (k : nat) (st : CrawlerState) (u : string) (incrDepth : bool)
  : Prop :=
  exists content rule path,
    fetched content k st
    /\ In rule (rulesOf incrDepth)
    /\ In path (cheerio content (selector rule) (attribute rule))
    /\ isRoot path = false
    /\ cleanURL path = Some u.

(** [visitsFound st st']: as [visits], with every visited candidate found
    on a body that was fetched before the candidate is requested. *)
Inductive visitsFound (st : CrawlerState) : CrawlerState -> Prop :=
| visitsFound_refl : visitsFound st st
| visitsFound_step st' u b :
    visitsFound st st' ->
    found (List.length (requests st')) st' u b ->
    includes (scannedHosts st') u = false ->
    atMaxDepth st' = false ->
    visitsFound st (visit u b st').

(** The [i]-th host of the visited list was requested by request [i + 1]
    and found on a body fetched by one of the requests before. *)
Definition placed (st : CrawlerState) : Prop :=
  S (List.length (scannedHosts st)) = List.length (requests st)
  /\ forall i u,
       nth_error (scannedHosts st) i = Some u ->
       (exists depth, nth_error (requests st) (S i) = Some (mkRequest u depth))
       /\ exists b, found (S i) st u b.

(** *** The parts of a canonical form *)

(** The host name, protocol and port [cleanURL] writes for a parsed
    candidate: its own when it has a host name, the seed's otherwise. *)
Definition authorityOf (pathInfo : NodeUrl.Url)
  : option string * option string * option string :=
  if truthy (NodeUrl.hostname pathInfo)
  then (NodeUrl.hostname pathInfo, NodeUrl.protocol pathInfo,
        NodeUrl.port pathInfo)
  else (Some (HOSTNAME self), PROTOCOL self, PORT self).

(** The path [cleanURL] writes: none for an absent, empty or root path. *)
Definition pathOf (pathInfo : NodeUrl.Url) : string :=
  if truthy (NodeUrl.pathname pathInfo)
     && negb (String.eqb (orEmpty (NodeUrl.pathname pathInfo)) "/")
  then orEmpty (NodeUrl.pathname pathInfo) else "".

End CrawlerClass.

(** [st'] extends [st] by the hosts [new], all requested, and the records
    [recs], all for hosts among [new]. *)
Record extends (st st' : CrawlerState) (new : list string)
  (recs : list CrawlerDownloadInfo) : Prop := mkExtends {
  ext_hosts : scannedHosts st' = (scannedHosts st ++ new)%list;
  ext_requests :
    map req_url (requests st') = (map req_url (requests st) ++ new)%list;
  ext_fresh : forall u, In u new -> ~ In u (scannedHosts st);
  ext_nodup : NoDup new;
  ext_records : scannedResourceInfo st' = (scannedResourceInfo st ++ recs)%list;
  ext_recorded : incl (map resource recs) new;
  ext_records_nodup : NoDup (map resource recs);
  ext_depth : (currentDepth st <= currentDepth st')%Z
}.

(* ===================================================================== *)
(** ** A small site, for the examples *)
(* ===================================================================== *)

Module Site.

Definition seed : string := "http://a.test/index.html".

(** The crawler [new Crawler(path, options)]. *)
Definition crawler (path : string) (o : CrawlerOptions) : Crawler :=
  match newCrawler NodeUrl.parse path (Some o) with
  | Some c => c
  | None => mkCrawler path "" None None o
  end.

(* the resources, named by their content *)
Definition home : Data :=
  Text ("<a href='/index.html'>Home</a> <a href='/'>Top</a>"
        ++ " <a href='/about'>About</a> <a href='/gone'>Gone</a>"
        ++ " <img src='/logo.png'>").

Definition about : Data := Text "<a href='/index.html'>Home</a>".

Definition logo : Data := Text "PNG".

(* the page of a second entry point, "/hub", which links to a JSON
   document *)
Definition hubPage : Data :=
  Text "<a href='/data.json'>Data</a> <a href='/about'>About</a>".

(* the document: its body is the text of an empty JSON object, which axios
   parses *)
Definition document : Data := Parsed "{}".

Definition hub : string := "http://a.test/hub".

Definition sameData (a b : Data) : bool :=
  match a, b with
  | Text x, Text y => String.eqb x y
  | Parsed x, Parsed y => String.eqb x y
  | _, _ => false
  end.

(** cheerio on these pages *)
Definition cheerio (content : Data) (selector attribute : string)
  : list (option string) :=
  if sameData content home then
    if String.eqb selector "a" && String.eqb attribute "href"
    then [Some "/index.html"; Some "/"; Some "/about"; Some "/gone"]
    else if String.eqb selector "img" && String.eqb attribute "src"
    then [Some "/logo.png"]
    else []
  else if sameData content about then
    if String.eqb selector "a" && String.eqb attribute "href"
    then [Some "/index.html"]
    else []
  else if sameData content hubPage then
    if String.eqb selector "a" && String.eqb attribute "href"
    then [Some "/data.json"; Some "/about"]
    else []
  else [].

(** the server: the same answer whenever a URL is asked for; every other
    URL fails.  The two pages built on request and the document come
    without a Content-Length (chunked); the files come with theirs. *)
Definition axios_get (n : nat) (url : string) : Response :=
  if String.eqb url "http://a.test/index.html" then
    Reply (mkResponse 200 None home)
  else if String.eqb url "http://a.test/about" then
    Reply (mkResponse 200 (Some "30") about)
  else if String.eqb url "http://a.test/logo.png" then
    Reply (mkResponse 200 (Some "3") logo)
  else if String.eqb url "http://a.test/hub" then
    Reply (mkResponse 200 None hubPage)
  else if String.eqb url "http://a.test/data.json" then
    Reply (mkResponse 200 None document)
  else ErrorValue.

Definition crawl (path : string) (o : CrawlerOptions) (fuel : nat) : Outcome :=
  run NodeUrl.parse (crawler path o) axios_get cheerio fuel.

End Site.


Arguments cleanURL url_parse self path : simpl never.

(* ===================================================================== *)
(** ** Properties of the traversal *)
(* ===================================================================== *)

Section Traversal.

Local Open Scope Z_scope.
Local Open Scope list_scope.

Variable url_parse : string -> NodeUrl.Url.
Variable self : Crawler.
Variable axios_get : nat -> string -> Response.
Variable cheerio : Data -> string -> string -> list (option string).

Local Abbreviation visit := (visit axios_get).
Local Abbreviation visits := (visits self axios_get).
Local Abbreviation seedState := (seedState self).

Lemma visits_trans st1 st2 st3 :
  visits st1 st2 -> visits st2 st3 -> visits st1 st3.
Proof.
  intros H12 H23. induction H23 as [|st' u b _ IH Hu Hg].
  - exact H12.
  - apply visits_step; assumption.
Qed.

Lemma visits_one st u b :
  includes (scannedHosts st) u = false -> atMaxDepth self st = false ->
  visits st (visit u b st).
Proof. intros. apply visits_step; [apply visits_refl | assumption..]. Qed.

Lemma await_ext a k1 k2 :
  (forall st, k1 st = k2 st) -> await a k1 = await a k2.
Proof. intros H. destruct a; simpl; [apply H | reflexivity..]. Qed.

(** How the loop treats its first candidate, case by case. *)
Lemma selectorLoop_gate scan b paths st :
  atMaxDepth self st = true ->
  selectorLoop url_parse self axios_get scan b paths st = Settled st.
Proof. intros H. destruct paths as [|p rest]; simpl; [|rewrite H]; reflexivity. Qed.

Lemma selectorLoop_root scan b path rest st :
  isRoot path = true ->
  selectorLoop url_parse self axios_get scan b (path :: rest) st
  = selectorLoop url_parse self axios_get scan b rest st.
Proof.
  intros H. simpl. rewrite H.
  destruct (atMaxDepth self st) eqn:Hg; [|reflexivity].
  symmetry. apply selectorLoop_gate. exact Hg.
Qed.

Lemma selectorLoop_skip scan b path rest st :
  atMaxDepth self st = false ->
  admissible (cleanURL url_parse self path) st = false ->
  selectorLoop url_parse self axios_get scan b (path :: rest) st
  = selectorLoop url_parse self axios_get scan b rest st.
Proof.
  intros Hg Ha. simpl. rewrite Hg, Ha. destruct (isRoot path); reflexivity.
Qed.

Lemma selectorLoop_admit scan b path rest st :
  atMaxDepth self st = false -> isRoot path = false ->
  admissible (cleanURL url_parse self path) st = true ->
  let u := orEmpty (cleanURL url_parse self path) in
  let st' := visit u b st in
  selectorLoop url_parse self axios_get scan b (path :: rest) st
  = match afterVisit self (axios_get (List.length (requests st)) u) st' with
    | ScanBody content =>
        do st'' <- scan content st' ;;
        selectorLoop url_parse self axios_get scan b rest st''
    | NextMatch => selectorLoop url_parse self axios_get scan b rest st'
    | Throw => Rejected st'
    end.
Proof.
  intros Hg Hr Ha. simpl. rewrite Hg, Hr, Ha.
  unfold visit, afterVisit, admitAndFetch, fetchPageContent.
  destruct b; simpl;
    destruct (axios_get _ _) as [r|]; simpl; try reflexivity;
    destruct (Z.leb 200 (status r) && Z.ltb (status r) 300); simpl;
    try reflexivity;
    destruct (downloadSize r); simpl; try reflexivity;
    destruct (mayDescend _ _); reflexivity.
Qed.

Lemma admissible_fresh path st :
  admissible (cleanURL url_parse self path) st = true ->
  includes (scannedHosts st) (orEmpty (cleanURL url_parse self path)) = false.
Proof.
  unfold admissible. intros H. apply andb_prop in H as [_ H].
  now apply negb_true_iff in H.
Qed.

Section LoopsVisit.

Variable scan : Data -> CrawlerState -> Async.
Hypothesis scan_visits : forall content st, visits st (stateOf (scan content st)).

Lemma selectorLoop_visits b paths st :
  visits st (stateOf (selectorLoop url_parse self axios_get scan b paths st)).
Proof.
  revert st. induction paths as [|path rest IH]; intros st.
  - apply visits_refl.
  - destruct (atMaxDepth self st) eqn:Hg.
    { rewrite selectorLoop_gate by exact Hg. apply visits_refl. }
    destruct (isRoot path) eqn:Hr.
    { rewrite selectorLoop_root by exact Hr. apply IH. }
    destruct (admissible (cleanURL url_parse self path) st) eqn:Ha.
    2:{ rewrite selectorLoop_skip by assumption. apply IH. }
    rewrite selectorLoop_admit by assumption.
    pose proof (visits_one st _ b (admissible_fresh _ _ Ha) Hg) as Hv.
    set (st' := visit _ b st) in *.
    destruct (afterVisit _ _ _) as [content| |].
    + pose proof (scan_visits content st') as Hs.
      destruct (scan content st') as [st''|st''|st'']; simpl in *.
      * eapply visits_trans; [|apply IH].
        eapply visits_trans; eassumption.
      * eapply visits_trans; eassumption.
      * eapply visits_trans; eassumption.
    + eapply visits_trans; [exact Hv | apply IH].
    + exact Hv.
Qed.

Lemma readResourceContent_visits content resources b st :
  visits st (stateOf (readResourceContent url_parse self axios_get cheerio scan
                        content resources b st)).
Proof.
  revert st. induction resources as [|r rest IH]; intros st; simpl.
  - apply visits_refl.
  - pose proof (selectorLoop_visits b
                  (cheerio content (selector r) (attribute r)) st) as Hl.
    destruct (selectorLoop _ _ _ _ _ _ _) as [st'|st'|st']; simpl in *.
    + eapply visits_trans; [exact Hl | apply IH].
    + exact Hl.
    + exact Hl.
Qed.

End LoopsVisit.

Lemma scanPage_visits fuel content st :
  visits st (stateOf (scanPage url_parse self axios_get cheerio fuel content st)).
Proof.
  revert content st. induction fuel as [|fuel IH]; intros content st; simpl.
  - apply visits_refl.
  - assert (Ha : visits st (stateOf
        (if includeAssets (CRAWLER_OPTIONS self)
         then scanResourceAsset url_parse self axios_get cheerio
                (scanPage url_parse self axios_get cheerio fuel) content st
         else Settled st))).
    { destruct (includeAssets _); [|apply visits_refl].
      apply readResourceContent_visits. exact IH. }
    destruct (if includeAssets _ then _ else _) as [st'|st'|st']; simpl in *.
    + eapply visits_trans; [exact Ha|].
      apply readResourceContent_visits. exact IH.
    + exact Ha.
    + exact Ha.
Qed.

(** *** What a sequence of visits does to the fields *)

Lemma includes_In l x : includes l x = true <-> In x l.
Proof.
  unfold includes. rewrite existsb_exists. split.
  - intros [y [Hy He]]. apply String.eqb_eq in He. now subst.
  - intros H. exists x. split; [exact H | apply String.eqb_refl].
Qed.

Lemma includes_not_In l x : includes l x = false <-> ~ In x l.
Proof.
  rewrite <- includes_In. destruct (includes l x); split; intros H;
    try reflexivity; try discriminate; try (intros H'; discriminate).
  exfalso. apply H. reflexivity.
Qed.

Lemma visit_depth u b st :
  currentDepth (visit u b st)
  = if b then currentDepth st + 1 else currentDepth st.
Proof.
  unfold visit, admitAndFetch, fetchPageContent.
  destruct b; simpl; destruct (axios_get _ _) as [r|]; simpl;
    try destruct (_ && _); try destruct (downloadSize _); reflexivity.
Qed.

Lemma visit_hosts u b st :
  scannedHosts (visit u b st) = scannedHosts st ++ [u].
Proof.
  unfold visit, admitAndFetch, fetchPageContent.
  destruct b; simpl; destruct (axios_get _ _) as [r|]; simpl;
    try destruct (_ && _); try destruct (downloadSize _); reflexivity.
Qed.

Lemma visit_requests u b st :
  requests (visit u b st)
  = requests st ++ [mkRequest u (currentDepth (visit u b st))].
Proof.
  unfold visit, admitAndFetch, fetchPageContent.
  destruct b; simpl; destruct (axios_get _ _) as [r|]; simpl;
    try destruct (_ && _); try destruct (downloadSize _); reflexivity.
Qed.

Lemma visit_records u b st :
  scannedResourceInfo (visit u b st)
  = scannedResourceInfo st
    ++ recordsOf u (axios_get (List.length (requests st)) u).
Proof.
  unfold visit, recordsOf, admitAndFetch, fetchPageContent.
  destruct b; simpl; destruct (axios_get _ _) as [r|]; simpl;
    try destruct (_ && _); try destruct (downloadSize _); simpl;
    now rewrite ?app_nil_r.
Qed.

Lemma recordsOf_cases u response :
  recordsOf u response = []
  \/ exists size, recordsOf u response = [mkInfo u size].
Proof.
  unfold recordsOf. destruct response as [r|]; [|now left].
  destruct (isSuccessResponse _); [|now left].
  destruct (downloadSize r) as [size|]; [right; now exists size | now left].
Qed.

(** The fields after a visit, written out. *)
Lemma visit_state u (b : bool) st :
  let d := if b then currentDepth st + 1 else currentDepth st in
  visit u b st
  = mkState d (scannedHosts st ++ [u])
      (scannedResourceInfo st
       ++ recordsOf u (axios_get (List.length (requests st)) u))
      (requests st ++ [mkRequest u d]).
Proof.
  unfold visit, recordsOf, admitAndFetch, fetchPageContent.
  destruct b; simpl; destruct (axios_get _ _) as [r|]; simpl;
    try destruct (_ && _); try destruct (downloadSize _); simpl;
    now rewrite ?app_nil_r.
Qed.

Lemma NoDup_snoc (A : Type) (l : list A) (x : A) :
  NoDup l -> ~ In x l -> NoDup (l ++ [x]).
Proof.
  intros Hl Hx. apply NoDup_rev in Hl.
  rewrite <- (rev_involutive (l ++ [x])). apply NoDup_rev.
  rewrite rev_app_distr. simpl. constructor; [|exact Hl].
  now rewrite <- in_rev.
Qed.

Lemma visits_extends st st' :
  visits st st' -> exists new recs, extends st st' new recs.
Proof.
  induction 1 as [|st' u b _ [new [recs E]] Hu Hg].
  - exists [], []. constructor; simpl; rewrite ?app_nil_r;
      try reflexivity; try constructor; try lia; intros u [].
  - destruct E as [Eh Er Ef En Ei Ec Ed Ez].
    apply includes_not_In in Hu. rewrite Eh in Hu.
    assert (Hu1 : ~ In u (scannedHosts st))
      by (intros K; apply Hu, in_or_app; now left).
    assert (Hu2 : ~ In u new) by (intros K; apply Hu, in_or_app; now right).
    exists (new ++ [u]).
    exists (recs ++ recordsOf u (axios_get (List.length (requests st')) u)).
    constructor.
    + rewrite visit_hosts, Eh. now rewrite app_assoc.
    + rewrite visit_requests, map_app, Er. simpl. now rewrite app_assoc.
    + intros v Hv. apply in_app_or in Hv as [Hv | [<- | []]]; auto.
    + apply NoDup_snoc; assumption.
    + rewrite visit_records, Ei. now rewrite app_assoc.
    + rewrite map_app. intros v Hv. apply in_app_or in Hv as [Hv | Hv].
      * apply in_or_app. left. now apply Ec.
      * apply in_or_app. right.
        destruct (recordsOf_cases u (axios_get (List.length (requests st')) u))
          as [E | [size E]]; rewrite E in Hv; [destruct Hv | exact Hv].
    + rewrite map_app.
      destruct (recordsOf_cases u (axios_get (List.length (requests st')) u))
        as [E | [size E]]; rewrite E; simpl; rewrite ?app_nil_r; auto.
      apply NoDup_snoc; [exact Ed|]. intros K. apply Hu2. now apply Ec.
    + rewrite visit_depth. destruct b; lia.
Qed.

Lemma visits_bounded lo st st' :
  visits st st' ->
  bounded lo (maxDepth (CRAWLER_OPTIONS self)) st ->
  bounded lo (maxDepth (CRAWLER_OPTIONS self)) st'.
Proof.
  intros Hv Hb. induction Hv as [|st' u b _ [IHd IHr] Hu Hg].
  - exact Hb.
  - unfold atMaxDepth in Hg. apply Z.eqb_neq in Hg.
    assert (Hd : lo <= currentDepth (visit u b st')
                 <= maxDepth (CRAWLER_OPTIONS self)).
    { rewrite visit_depth. destruct b; lia. }
    split; [exact Hd|].
    rewrite visit_requests. apply Forall_app. split; [exact IHr|].
    constructor; [exact Hd | constructor].
Qed.

(** A host once in the visited list stays there, is not requested again and
    gets no further record. *)
Lemma visits_keeps st st' u :
  visits st st' -> In u (scannedHosts st) ->
  In u (scannedHosts st')
  /\ count_occ string_dec (map req_url (requests st')) u
     = count_occ string_dec (map req_url (requests st)) u
  /\ count_occ string_dec (map resource (scannedResourceInfo st')) u
     = count_occ string_dec (map resource (scannedResourceInfo st)) u.
Proof.
  intros Hv Hu. apply visits_extends in Hv as [new [recs E]].
  destruct E as [Eh Er Ef En Ei Ec Ed Ez].
  assert (Hn : ~ In u new) by (intros K; now apply (Ef u K)).
  split; [rewrite Eh; apply in_or_app; now left|].
  split.
  - rewrite Er, count_occ_app.
    rewrite (proj1 (count_occ_not_In string_dec new u) Hn). lia.
  - rewrite Ei, map_app, count_occ_app.
    rewrite (proj1 (count_occ_not_In string_dec (map resource recs) u)); [lia|].
    intros K. apply Hn. now apply Ec.
Qed.

Lemma run_visits fuel :
  visits seedState (finalState (run url_parse self axios_get cheerio fuel)).
Proof.
  unfold run, fetchPageContent. simpl.
  destruct (axios_get 0 (URL self)) as [r|]; simpl; [|apply visits_refl].
  destruct (Z.leb 200 (status r) && Z.ltb (status r) 300); simpl;
    [|apply visits_refl].
  pose proof (scanPage_visits fuel (data r) seedState) as H.
  unfold seedState in *.
  destruct (scanPage _ _ _ _ _ _ _); simpl in *; exact H.
Qed.

Lemma visits_requests st st' :
  visits st st' -> exists more, requests st' = requests st ++ more.
Proof.
  induction 1 as [|st' u b _ [more E] Hu Hg].
  - exists []. now rewrite app_nil_r.
  - rewrite visit_requests, E. eexists. now rewrite <- app_assoc.
Qed.

Local Abbreviation loop := (selectorLoop url_parse self axios_get).
Local Abbreviation read := (readResourceContent url_parse self axios_get cheerio).
Local Abbreviation scanPageN := (scanPage url_parse self axios_get cheerio).
Local Abbreviation runN := (run url_parse self axios_get cheerio).

Lemma readResourceContent_gate scan content resources b st :
  atMaxDepth self st = true ->
  read scan content resources b st = Settled st.
Proof.
  intros Hg. induction resources as [|r rest IH]; simpl; [reflexivity|].
  rewrite selectorLoop_gate by exact Hg. simpl. exact IH.
Qed.

Lemma scanPage_S fuel content st :
  scanPageN (S fuel) content st
  = do st <- (if includeAssets (CRAWLER_OPTIONS self)
              then scanResourceAsset url_parse self axios_get cheerio
                     (scanPageN fuel) content st
              else Settled st) ;;
    scanResourceLink url_parse self axios_get cheerio (scanPageN fuel) content st.
Proof. reflexivity. Qed.

Lemma scanPage_gate fuel content st :
  atMaxDepth self st = true ->
  scanPageN (S fuel) content st = Settled st.
Proof.
  intros Hg. rewrite scanPage_S. unfold scanResourceAsset, scanResourceLink.
  destruct (includeAssets _);
    rewrite ?readResourceContent_gate by exact Hg; unfold await;
    rewrite ?readResourceContent_gate by exact Hg; reflexivity.
Qed.

(** *** Enough fuel: a crawl that follows links only settles *)

Lemma visits_depth_mono st st' :
  visits st st' -> currentDepth st <= currentDepth st'.
Proof.
  intros H. destruct (visits_extends _ _ H) as [new [recs E]].
  apply (ext_depth _ _ _ _ E).
Qed.

Lemma visits_depth_max st st' :
  visits st st' ->
  currentDepth st <= maxDepth (CRAWLER_OPTIONS self) ->
  currentDepth st' <= maxDepth (CRAWLER_OPTIONS self).
Proof.
  intros H Hd. induction H as [|st' u b _ IH Hu Hg]; [exact Hd|].
  unfold atMaxDepth in Hg. apply Z.eqb_neq in Hg.
  rewrite visit_depth. destruct b; lia.
Qed.

Section LinkLoopSettles.

Variable scan : Data -> CrawlerState -> Async.
Variable budget : Z.
Hypothesis scan_visits : forall content st, visits st (stateOf (scan content st)).
Hypothesis scan_settles : forall content st,
  currentDepth st <= maxDepth (CRAWLER_OPTIONS self) ->
  maxDepth (CRAWLER_OPTIONS self) - currentDepth st < budget ->
  finished (scan content st) = true.

Lemma link_loop_settles paths st :
  currentDepth st <= maxDepth (CRAWLER_OPTIONS self) ->
  maxDepth (CRAWLER_OPTIONS self) - currentDepth st <= budget ->
  finished (loop scan true paths st) = true.
Proof.
  revert st. induction paths as [|path rest IH]; intros st Hd Hb.
  - reflexivity.
  - destruct (atMaxDepth self st) eqn:Hg.
    { rewrite selectorLoop_gate by exact Hg. reflexivity. }
    destruct (isRoot path) eqn:Hr.
    { rewrite selectorLoop_root by exact Hr. now apply IH. }
    destruct (admissible (cleanURL url_parse self path) st) eqn:Ha.
    2:{ rewrite selectorLoop_skip by assumption. now apply IH. }
    rewrite selectorLoop_admit by assumption.
    set (st1 := visit _ true st).
    assert (H1 : currentDepth st1 = currentDepth st + 1)
      by (unfold st1; now rewrite visit_depth).
    unfold atMaxDepth in Hg. apply Z.eqb_neq in Hg.
    destruct (afterVisit _ _ _) as [content| |];
      [|apply IH; lia | reflexivity].
    pose proof (scan_settles content st1) as Hf.
    pose proof (scan_visits content st1) as Hv.
    destruct (scan content st1) as [st2|st2|st2] eqn:E2; simpl in *.
    + pose proof (visits_depth_mono _ _ Hv).
      pose proof (visits_depth_max _ _ Hv).
      apply IH; lia.
    + reflexivity.
    + apply Hf; lia.
Qed.

End LinkLoopSettles.

Lemma links_only_scan_settles fuel content st :
  includeAssets (CRAWLER_OPTIONS self) = false ->
  currentDepth st <= maxDepth (CRAWLER_OPTIONS self) ->
  maxDepth (CRAWLER_OPTIONS self) - currentDepth st < Z.of_nat fuel ->
  finished (scanPageN fuel content st) = true.
Proof.
  intros Hno. revert content st.
  induction fuel as [|fuel IH]; intros content st Hd Hb; [simpl in Hb; lia|].
  rewrite scanPage_S, Hno. unfold await at 1.
  unfold scanResourceLink, readResourceContent.
  pose proof (link_loop_settles (scanPageN fuel) (Z.of_nat fuel)
                (scanPage_visits fuel) IH
                (cheerio content (selector LINK_RESOURCE)
                   (attribute LINK_RESOURCE))
                st Hd) as H.
  destruct (selectorLoop _ _ _ _ _ _ _) as [st'|st'|st']; simpl in *;
    [reflexivity | reflexivity | apply H; lia].
Qed.

(** A run that follows links only, with [maxDepth >= 0], is over within
    [maxDepth + 1] nested scans: it resolves, or it is never settled (its
    seed request failed, or a scan threw). *)
Lemma links_only_run_settles fuel :
  includeAssets (CRAWLER_OPTIONS self) = false ->
  0 <= maxDepth (CRAWLER_OPTIONS self) < Z.of_nat fuel ->
  exists st, runN fuel = Resolved st \/ runN fuel = NeverSettled st.
Proof.
  intros Hno Hfuel. unfold run, fetchPageContent. simpl List.length.
  destruct (axios_get 0 (URL self)) as [r|]; [|eexists; right; reflexivity].
  destruct (isSuccessResponse (Reply r)); [|eexists; right; reflexivity].
  match goal with |- context [scanPage _ _ _ _ fuel ?c ?s] =>
    pose proof (links_only_scan_settles fuel c s Hno) as H;
    destruct (scanPage url_parse self axios_get cheerio fuel c s)
      as [st'|st'|st']; simpl in H
  end.
  - exists st'. now left.
  - exists st'. now right.
  - assert (false = true) by (apply H; simpl; lia). discriminate.
Qed.

(** Every request of a run but the first is for a host admitted to the
    visited list just before, and no host is admitted twice. *)
Lemma requests_follow_admissions fuel :
  let st := finalState (runN fuel) in
  map req_url (requests st) = URL self :: scannedHosts st
  /\ NoDup (scannedHosts st).
Proof.
  simpl. destruct (visits_extends _ _ (run_visits fuel)) as [new [recs E]].
  destruct E as [Eh Er Ef En Ei Ec Ed Ez]. simpl in *.
  rewrite Er, Eh. split; [reflexivity | exact En].
Qed.

(** C3. For every crawl run, no two entries of the DownloadRecord list have
    the same [resource]: this holds of [scannedResourceInfo] whenever the run
    is observed, and so of the list the promise is resolved with. *)
Theorem records_have_distinct_resources fuel :
  NoDup (map resource
           (scannedResourceInfo
              (finalState (run url_parse self axios_get cheerio fuel))))
  /\ match result (run url_parse self axios_get cheerio fuel) with
     | Some records => NoDup (map resource records)
     | None => True
     end.
Proof.
  assert (H : NoDup (map resource (scannedResourceInfo (finalState (runN fuel))))).
  { destruct (visits_extends _ _ (run_visits fuel)) as [new [recs E]].
    destruct E as [Eh Er Ef En Ei Ec Ed Ez]. simpl in Ei.
    rewrite Ei. exact Ed. }
  split; [exact H|].
  destruct (run url_parse self axios_get cheerio fuel); simpl in *; auto.
Qed.

(** C9. With [maxDepth >= 0] the depth counter never exceeds [maxDepth]: it
    is 0 after the seed request, the run is a sequence of visits each made
    behind a gate that found the counter different from [maxDepth], and the
    counter, like every value it had when a request was issued, lies between
    0 and [maxDepth]. *)
Theorem depth_never_exceeds_maxDepth fuel :
  0 <= maxDepth (CRAWLER_OPTIONS self) ->
  currentDepth seedState = 0
  /\ visits seedState (finalState (run url_parse self axios_get cheerio fuel))
  /\ bounded 0 (maxDepth (CRAWLER_OPTIONS self))
       (finalState (run url_parse self axios_get cheerio fuel)).
Proof.
  intros Hmax. split; [reflexivity|]. split; [apply run_visits|].
  apply (visits_bounded 0 seedState); [apply run_visits|].
  split; simpl; [lia|]. constructor; [simpl; lia | constructor].
Qed.

(** C7. A selector match whose raw attribute value is the string "/" is
    skipped entirely: the loop over the matches behaves exactly as on the
    list without that match, whatever comes before and after it. *)
Theorem root_path_is_skipped scan b pre post st :
  selectorLoop url_parse self axios_get scan b
    (pre ++ Some "/"%string :: post) st
  = selectorLoop url_parse self axios_get scan b (pre ++ post) st.
Proof.
  revert st. induction pre as [|path pre IH]; intros st.
  - apply selectorLoop_root. reflexivity.
  - rewrite <- !app_comm_cons.
    destruct (atMaxDepth self st) eqn:Hg.
    { now rewrite !selectorLoop_gate by exact Hg. }
    destruct (isRoot path) eqn:Hr.
    { rewrite !selectorLoop_root by exact Hr. apply IH. }
    destruct (admissible (cleanURL url_parse self path) st) eqn:Ha.
    2:{ rewrite !selectorLoop_skip by assumption. apply IH. }
    rewrite !selectorLoop_admit by assumption.
    destruct (afterVisit _ _ _) as [content| |]; [|apply IH | reflexivity].
    apply await_ext. intros st'. apply IH.
Qed.

(** C10. When the request for an admitted link fails (an error, or a status
    outside 200-299) nothing is rolled back: the loop goes on from the
    fields with the host pushed and the depth incremented, no record added.
    In the fields the loop ends with, and in every later state of the
    crawl, the host is on the visited list, the depth counter is at least
    its incremented value, the host has been requested once, by this
    admission, and never again, and it has no more records than before: the
    unit of depth is spent on a resource that produced no record. *)
Theorem failed_link_fetch_is_not_rolled_back fuel path rest st u :
  atMaxDepth self st = false ->
  isRoot path = false ->
  cleanURL url_parse self path = Some u ->
  admissible (Some u) st = true ->
  isSuccessResponse (axios_get (List.length (requests st)) u) = false ->
  let scan := scanPage url_parse self axios_get cheerio fuel in
  let st1 := mkState (currentDepth st + 1) (scannedHosts st ++ [u])
               (scannedResourceInfo st)
               (requests st ++ [mkRequest u (currentDepth st + 1)]) in
  let kept st' :=
    In u (scannedHosts st')
    /\ currentDepth st + 1 <= currentDepth st'
    /\ count_occ string_dec (map req_url (requests st')) u
       = S (count_occ string_dec (map req_url (requests st)) u)
    /\ count_occ string_dec (map resource (scannedResourceInfo st')) u
       = count_occ string_dec (map resource (scannedResourceInfo st)) u in
  selectorLoop url_parse self axios_get scan true (path :: rest) st
  = selectorLoop url_parse self axios_get scan true rest st1
  /\ kept (stateOf (selectorLoop url_parse self axios_get scan true
                      (path :: rest) st))
  /\ forall st2,
       visits (stateOf (selectorLoop url_parse self axios_get scan true
                          (path :: rest) st)) st2 ->
       kept st2.
Proof.
  intros Hg Hr Hc Ha Hf scan st1 kept.
  assert (Hn : recordsOf u (axios_get (List.length (requests st)) u) = []).
  { unfold recordsOf. destruct (axios_get _ _) as [r|]; [|reflexivity].
    now rewrite Hf. }
  assert (Hv : visit u true st = st1).
  { rewrite visit_state, Hn, app_nil_r. reflexivity. }
  assert (Hloop : selectorLoop url_parse self axios_get scan true
                    (path :: rest) st
                  = selectorLoop url_parse self axios_get scan true rest st1).
  { rewrite selectorLoop_admit; rewrite ?Hc; try assumption.
    simpl orEmpty. rewrite Hv. unfold afterVisit.
    destruct (axios_get _ _) as [r|]; [|reflexivity].
    now rewrite Hf. }
  assert (Hkept : forall st2, visits st1 st2 -> kept st2).
  { intros st2 H12.
    assert (Hin : In u (scannedHosts st1))
      by (apply in_or_app; right; now left).
    destruct (visits_keeps st1 st2 u H12 Hin) as [K1 [K2 K3]].
    pose proof (visits_depth_mono _ _ H12) as K4.
    unfold kept. repeat split; try assumption.
    rewrite K2. simpl. rewrite map_app, count_occ_app. simpl.
    destruct (string_dec u u) as [_|N]; [lia | now contradiction N]. }
  assert (Hend : visits st1
                   (stateOf (selectorLoop url_parse self axios_get scan true
                               (path :: rest) st))).
  { rewrite Hloop. apply selectorLoop_visits. apply scanPage_visits. }
  split; [exact Hloop|]. split; [now apply Hkept|].
  intros st2 H2. apply Hkept. eapply visits_trans; eassumption.
Qed.

(** C1, as the code has it.  With [maxDepth = 0] the depth gate is closed
    from the start for every rule, the asset rules included: the scan of the
    seed page requests nothing and records nothing, whatever
    [includeAssets] says, and a run whose seed request succeeds resolves
    with the empty list. *)
Theorem maxDepth_zero_fetches_nothing fuel :
  maxDepth (CRAWLER_OPTIONS self) = 0 ->
  finalState (run url_parse self axios_get cheerio fuel) = seedState
  /\ run url_parse self axios_get cheerio (S fuel)
     = (if isSuccessResponse (axios_get 0 (URL self))
        then Resolved seedState else NeverSettled seedState)
  /\ (if isSuccessResponse (axios_get 0 (URL self))
      then result (run url_parse self axios_get cheerio (S fuel)) = Some []
      else result (run url_parse self axios_get cheerio (S fuel)) = None).
Proof.
  intros Hmax.
  assert (Hg : atMaxDepth self seedState = true)
    by (unfold atMaxDepth; simpl; rewrite Hmax; reflexivity).
  unfold run, fetchPageContent. simpl List.length. simpl app.
  change (mkState (currentDepth initialState) (scannedHosts initialState)
            (scannedResourceInfo initialState)
            [mkRequest (URL self) (currentDepth initialState)])
    with seedState.
  destruct (axios_get 0 (URL self)) as [r|]; [|repeat split].
  destruct (isSuccessResponse (Reply r)); [|repeat split].
  rewrite scanPage_gate by exact Hg.
  destruct fuel; [repeat split|].
  rewrite scanPage_gate by exact Hg. repeat split.
Qed.

(** C4, on the code.  When the seed request fails or its status is outside
    200-299, no branch of [run] calls [resolve]: the promise is never
    settled, and no result list is delivered. *)
Theorem failed_seed_never_resolves fuel :
  isSuccessResponse (axios_get 0 (URL self)) = false ->
  run url_parse self axios_get cheerio fuel = NeverSettled seedState
  /\ result (run url_parse self axios_get cheerio fuel) = None.
Proof.
  intros Hf. unfold run, fetchPageContent. simpl List.length.
  destruct (axios_get 0 (URL self)) as [r|]; [|split; reflexivity].
  rewrite Hf. split; reflexivity.
Qed.

(** C8, on the code.  A successful request (status in 200-299) for an
    admitted candidate whose body axios has parsed into a value that is not
    a string, and whose Content-Length is absent, not numeric or zero, makes
    line 206 throw: [Buffer.byteLength] refuses the value.  The candidate
    has been pushed on the visited list, counted and requested, but no
    record is appended for it; the scan is rejected there, whatever matches
    follow. *)
Theorem non_text_body_is_not_recorded scan (b : bool) path rest st u r source :
  atMaxDepth self st = false ->
  isRoot path = false ->
  cleanURL url_parse self path = Some u ->
  admissible (Some u) st = true ->
  axios_get (List.length (requests st)) u = Reply r ->
  200 <= status r < 300 ->
  falsy (toNumber (content_length r)) = true ->
  data r = Parsed source ->
  let d := if b then currentDepth st + 1 else currentDepth st in
  downloadSize r = None
  /\ selectorLoop url_parse self axios_get scan b (path :: rest) st
     = Rejected (mkState d (scannedHosts st ++ [u]) (scannedResourceInfo st)
                   (requests st ++ [mkRequest u d])).
Proof.
  intros Hg Hr Hc Ha Hq [Hlo Hhi] Hh Hd d.
  assert (Hs : isSuccessResponse (Reply r) = true).
  { simpl. apply andb_true_intro. split; [apply Z.leb_le | apply Z.ltb_lt]; lia. }
  assert (Hsz : downloadSize r = None).
  { unfold downloadSize. rewrite Hh, Hd. reflexivity. }
  split; [exact Hsz|].
  rewrite selectorLoop_admit; rewrite ?Hc; try assumption.
  simpl orEmpty. rewrite visit_state, Hq.
  unfold afterVisit, recordsOf. rewrite Hs, Hsz, app_nil_r. reflexivity.
Qed.

End Traversal.


(* ===================================================================== *)
(** ** Properties of canonicalisation *)
(* ===================================================================== *)

Section Canonical.

Variable url_parse : string -> NodeUrl.Url.
Variable self : Crawler.

Local Abbreviation clean := (cleanURL url_parse self).

Lemma cleanURL_unfold path :
  clean path
  = if negb (truthy path) then None
    else
      let pathInfo := url_parse (orEmpty path) in
      let '(hostname, protocol, port) := authorityOf self pathInfo in
      Some (template protocol ++ "//" ++ template hostname
            ++ (if truthy port then orEmpty port else "")
            ++ pathOf pathInfo).
Proof. reflexivity. Qed.

Lemma truthy_with_slashes a b : truthy (Some (a ++ "//" ++ b)) = true.
Proof. destruct a; reflexivity. Qed.

Lemma truthy_template o : truthy o = true -> template o = orEmpty o.
Proof. destruct o; [reflexivity | discriminate]. Qed.

Lemma append_assoc (a b c : string) : (a ++ b) ++ c = a ++ b ++ c.
Proof. induction a as [|x a IH]; simpl; [reflexivity | now rewrite IH]. Qed.

(** Whatever [cleanURL] returns is a non-empty string. *)
Lemma cleanURL_truthy path c : clean path = Some c -> truthy (Some c) = true.
Proof.
  rewrite cleanURL_unfold. destruct (negb (truthy path)); [discriminate|].
  cbv zeta. destruct (authorityOf self _) as [[h p] po].
  intros [= <-]. apply truthy_with_slashes.
Qed.

(** Two candidates with the same authority and no path beyond the root
    have the same canonical form. *)
Lemma cleanURL_root_path a b :
  truthy (Some a) = true -> truthy (Some b) = true ->
  authorityOf self (url_parse a) = authorityOf self (url_parse b) ->
  pathOf (url_parse a) = "" -> pathOf (url_parse b) = "" ->
  clean (Some a) = clean (Some b).
Proof.
  intros Ha Hb Hauth Hpa Hpb. rewrite !cleanURL_unfold, Ha, Hb. simpl.
  now rewrite Hauth, Hpa, Hpb.
Qed.

End Canonical.

(* ===================================================================== *)
(** ** The parser on plain URLs *)
(* ===================================================================== *)

Section PlainUrls.

Import NodeUrl.
Local Open Scope list_scope.

Lemma plainHost_facts c :
  plainHostChar c = true ->
  isWs c = false /\ nonHostChar c = false /\ hostEndingChar c = false
  /\ isCode CHAR_AT c = false /\ validHostChar c = true /\ to_lower c = c
  /\ isCode CHAR_COLON c = false /\ isCode CHAR_LEFT_SQUARE_BRACKET c = false
  /\ isCode CHAR_BACKWARD_SLASH c = false /\ isCode CHAR_HASH c = false.
Proof.
  destruct c as [[|] [|] [|] [|] [|] [|] [|] [|]];
  vm_compute; intros; first [discriminate | repeat split].
Qed.

Lemma plainPath_facts c :
  plainPathChar c = true ->
  isWs c = false /\ regexp_space c = false /\ isCode CHAR_HASH c = false
  /\ isCode CHAR_QUESTION_MARK c = false /\ isCode CHAR_BACKWARD_SLASH c = false
  /\ isCode CHAR_AT c = false /\ escapedCode c = None.
Proof.
  destruct c as [[|] [|] [|] [|] [|] [|] [|] [|]];
  vm_compute; intros; first [discriminate | repeat split].
Qed.

(* generic list facts *)
Lemma takeWhile_all p l : forallb p l = true -> takeWhile p l = l.
Proof.
  induction l as [|c t IH]; simpl; [reflexivity|].
  intros H. apply andb_prop in H as [Hc Ht]. rewrite Hc. now rewrite IH.
Qed.

Lemma dropWhile_all p l : forallb p l = true -> dropWhile p l = [].
Proof.
  induction l as [|c t IH]; simpl; [reflexivity|].
  intros H. apply andb_prop in H as [Hc Ht]. rewrite Hc. now apply IH.
Qed.

Lemma takeWhile_app_stop p l c t :
  forallb p l = true -> p c = false -> takeWhile p (l ++ c :: t) = l.
Proof.
  induction l as [|x l IH]; simpl; intros H Hc; [now rewrite Hc|].
  apply andb_prop in H as [Hx Hl]. rewrite Hx. now rewrite IH.
Qed.

Lemma dropWhile_app_stop p l c t :
  forallb p l = true -> p c = false -> dropWhile p (l ++ c :: t) = c :: t.
Proof.
  induction l as [|x l IH]; simpl; intros H Hc; [now rewrite Hc|].
  apply andb_prop in H as [Hx Hl]. rewrite Hx. now apply IH.
Qed.

Lemma dropWhile_none p l : forallb (fun c => negb (p c)) l = true -> dropWhile p l = l.
Proof.
  destruct l as [|c t]; simpl; [reflexivity|].
  intros H. apply andb_prop in H as [Hc _]. apply negb_true_iff in Hc. now rewrite Hc.
Qed.

Lemma forallb_rev (p : ascii -> bool) l : forallb p (rev l) = forallb p l.
Proof.
  induction l as [|c t IH]; simpl; [reflexivity|].
  rewrite forallb_app, IH. simpl. rewrite andb_true_r. apply andb_comm.
Qed.

Lemma forallb_impl (p q : ascii -> bool) l :
  (forall c, p c = true -> q c = true) -> forallb p l = true -> forallb q l = true.
Proof.
  intros Hpq. induction l as [|c t IH]; simpl; [reflexivity|].
  intros H. apply andb_prop in H as [Hc Ht]. rewrite (Hpq _ Hc). now apply IH.
Qed.

Lemma forallb_dropWhile (p q : ascii -> bool) l :
  forallb p l = true -> forallb p (dropWhile q l) = true.
Proof.
  induction l as [|c t IH]; simpl; [reflexivity|].
  intros H. destruct (q c); [apply andb_prop in H as [_ Ht]; now apply IH|].
  exact H.
Qed.

Lemma trim_quiet l : forallb (fun c => negb (isWs c)) l = true -> trim l = l.
Proof.
  intros H. unfold trim. rewrite (dropWhile_none isWs l H).
  rewrite dropWhile_none by now rewrite forallb_rev.
  apply rev_involutive.
Qed.

Lemma convertBackslashes_quiet l :
  forallb (fun c => negb (isCode CHAR_BACKWARD_SLASH c)) l = true ->
  convertBackslashes l = l.
Proof.
  induction l as [|c t IH]; simpl; [reflexivity|].
  intros H. apply andb_prop in H as [Hc Ht]. apply negb_true_iff in Hc.
  rewrite Hc. rewrite (IH Ht). now destruct (_ || _).
Qed.

Lemma hasHash_quiet l :
  forallb (fun c => negb (isCode CHAR_HASH c)) l = true -> hasHash l = false.
Proof.
  unfold hasHash. induction l as [|c t IH]; simpl; [reflexivity|].
  intros H. apply andb_prop in H as [Hc Ht]. apply negb_true_iff in Hc.
  rewrite Hc. now apply IH.
Qed.

Lemma scanHost_plain h rest i a n :
  forallb plainHostChar h = true ->
  scanHost (h ++ rest) i a n = scanHost rest (i + List.length h) a n.
Proof.
  revert i. induction h as [|c t IH]; simpl; intros i H.
  - now rewrite Nat.add_0_r.
  - apply andb_prop in H as [Hc Ht].
    destruct (plainHost_facts c Hc) as (_ & H1 & H2 & H3 & _).
    rewrite H1, H2, H3. rewrite IH by exact Ht. f_equal. lia.
Qed.

Lemma parseHost_plain h :
  h <> [] -> forallb plainHostChar h = true -> parseHost h = (Some h, None).
Proof.
  intros Hne H. unfold parseHost. rewrite rev_involutive.
  assert (Hd : forallb plainHostChar (dropWhile is_digit (rev h)) = true)
    by (apply forallb_dropWhile; now rewrite forallb_rev).
  destruct (dropWhile is_digit (rev h)) as [|c front].
  - destruct h; [contradiction | reflexivity].
  - simpl in Hd. apply andb_prop in Hd as [Hc _].
    destruct (plainHost_facts c Hc) as (_ & _ & _ & _ & _ & _ & H7 & _).
    rewrite H7. destruct h; [contradiction | reflexivity].
Qed.

Lemma getHostname_plain rest h :
  forallb plainHostChar h = true -> getHostname rest h = (h, rest).
Proof.
  intros H. unfold getHostname. rewrite dropWhile_all; [reflexivity|].
  eapply forallb_impl; [|exact H]. intros c Hc.
  now destruct (plainHost_facts c Hc) as (_ & _ & _ & _ & H5 & _).
Qed.

Lemma toLowerCase_plain h : forallb plainHostChar h = true -> toLowerCase h = h.
Proof.
  unfold toLowerCase. induction h as [|c t IH]; simpl; [reflexivity|].
  intros H. apply andb_prop in H as [Hc Ht].
  destruct (plainHost_facts c Hc) as (_ & _ & _ & _ & _ & H6 & _).
  now rewrite H6, IH.
Qed.

Lemma autoEscapeStr_plain p : forallb plainPathChar p = true -> autoEscapeStr p = p.
Proof.
  unfold autoEscapeStr. induction p as [|c t IH]; simpl; [reflexivity|].
  intros H. apply andb_prop in H as [Hc Ht].
  destruct (plainPath_facts c Hc) as (_ & _ & _ & _ & _ & _ & H7).
  now rewrite H7, IH.
Qed.

Lemma slice_app_left (l r : chars) : slice 0 (List.length l) (l ++ r) = l.
Proof.
  unfold slice. simpl. rewrite Nat.sub_0_r.
  rewrite firstn_app, Nat.sub_diag, firstn_all. simpl. apply app_nil_r.
Qed.

Lemma skipn_app_left (l r : chars) : skipn (List.length l) (l ++ r) = r.
Proof.
  rewrite skipn_app, skipn_all, Nat.sub_diag. reflexivity.
Qed.

(** The host section on a plain host followed by nothing or by a path. *)
Lemma hostSection_plain h p :
  h <> [] -> forallb plainHostChar h = true -> (List.length h <= 255)%nat ->
  p = [] \/ (exists q, p = slash :: q) ->
  hostSection (h ++ p) = (str h, None, p).
Proof.
  intros Hne Hh Hlen Hp. unfold hostSection.
  rewrite scanHost_plain by exact Hh. simpl Nat.add.
  assert (Hscan : scanHost p (List.length h) None None
                  = (None, match p with [] => None | _ => Some (List.length h) end)).
  { destruct Hp as [-> | [q ->]]; reflexivity. }
  rewrite Hscan.
  assert (Hsplit : (match p with
                    | [] => (skipn 0 (h ++ p), [])
                    | _ => (slice 0 (List.length h) (h ++ p),
                            skipn (List.length h) (h ++ p))
                    end) = (h, p)).
  { destruct Hp as [-> | [q ->]].
    - simpl. now rewrite app_nil_r.
    - now rewrite slice_app_left, skipn_app_left. }
  destruct p as [|c q].
  - simpl in Hsplit. injection Hsplit as Hs. rewrite app_nil_r in *.
    simpl skipn. rewrite parseHost_plain by assumption.
    assert (Hipv6 : match h with
                    | c :: _ => isCode CHAR_LEFT_SQUARE_BRACKET c
                                && isCode CHAR_RIGHT_SQUARE_BRACKET (last h c)
                    | [] => false end = false).
    { destruct h as [|c t]; [reflexivity|]. simpl in Hh.
      apply andb_prop in Hh as [Hc _].
      destruct (plainHost_facts c Hc) as (_ & _ & _ & _ & _ & _ & _ & H8 & _).
      now rewrite H8. }
    rewrite Hipv6. rewrite getHostname_plain by exact Hh.
    apply Nat.ltb_ge in Hlen. unfold hostnameMaxLen. rewrite Hlen.
    now rewrite toLowerCase_plain.
  - rewrite slice_app_left, skipn_app_left.
    rewrite parseHost_plain by assumption.
    assert (Hipv6 : match h with
                    | c :: _ => isCode CHAR_LEFT_SQUARE_BRACKET c
                                && isCode CHAR_RIGHT_SQUARE_BRACKET (last h c)
                    | [] => false end = false).
    { destruct h as [|c' t]; [reflexivity|]. simpl in Hh.
      apply andb_prop in Hh as [Hc _].
      destruct (plainHost_facts c' Hc) as (_ & _ & _ & _ & _ & _ & _ & H8 & _).
      now rewrite H8. }
    rewrite Hipv6. rewrite getHostname_plain by exact Hh.
    apply Nat.ltb_ge in Hlen. unfold hostnameMaxLen. rewrite Hlen.
    now rewrite toLowerCase_plain.
Qed.

Local Open Scope char_scope.

Lemma quiet_plainHost h :
  forallb plainHostChar h = true ->
  forallb (fun c => negb (isWs c)) h = true
  /\ forallb (fun c => negb (isCode CHAR_BACKWARD_SLASH c)) h = true
  /\ forallb (fun c => negb (isCode CHAR_HASH c)) h = true.
Proof.
  intros H. repeat split; (eapply forallb_impl; [|exact H]); intros c Hc;
    destruct (plainHost_facts c Hc) as (H1 & _ & _ & _ & _ & _ & _ & _ & H9 & H10);
    now rewrite ?H1, ?H9, ?H10.
Qed.

Lemma quiet_plainPath p :
  forallb plainPathChar p = true ->
  forallb (fun c => negb (isWs c)) p = true
  /\ forallb (fun c => negb (isCode CHAR_BACKWARD_SLASH c)) p = true
  /\ forallb (fun c => negb (isCode CHAR_HASH c)) p = true
  /\ forallb (fun c => negb (isCode CHAR_HASH c)) p = true
  /\ forallb not_question p = true
  /\ forallb (fun c => negb (regexp_space c)) p = true.
Proof.
  intros H. repeat split; (eapply forallb_impl; [|exact H]); intros c Hc;
    destruct (plainPath_facts c Hc) as (H1 & H2 & H3 & H4 & H5 & H6 & H7);
    unfold not_question; now rewrite ?H1, ?H2, ?H3, ?H4, ?H5.
Qed.

Lemma parse_plain_http h p :
  h <> [] -> forallb plainHostChar h = true -> (List.length h <= 255)%nat ->
  forallb plainPathChar p = true ->
  p = [] \/ (exists q, p = slash :: q) ->
  parse (str (httpPrefix ++ h ++ p))
  = mkUrl (Some "http:"%string) true (Some (str h)) None
      (Some (match p with [] => "/"%string | _ => str p end)) None None.
Proof.
  intros Hne Hh Hlen Hp Hshape.
  destruct (quiet_plainHost h Hh) as (Hh1 & Hh2 & Hh3).
  destruct (quiet_plainPath p Hp) as (Hp1 & Hp2 & Hp3 & _ & Hp5 & _).
  unfold parse, str. rewrite list_ascii_of_string_of_list_ascii.
  rewrite trim_quiet
    by (rewrite !forallb_app, Hh1, Hp1; reflexivity).
  rewrite convertBackslashes_quiet
    by (rewrite !forallb_app, Hh2, Hp2; reflexivity).
  rewrite hasHash_quiet
    by (rewrite !forallb_app, Hh3, Hp3; reflexivity).
  change (simplePath (httpPrefix ++ h ++ p)) with (@None (chars * chars)).
  change (protocolPattern (httpPrefix ++ h ++ p))
    with (Some (["h"; "t"; "t"; "p"; ":"], "/" :: "/" :: h ++ p)).
  cbv beta iota zeta.
  change (option_map toLowerCase (Some ["h"; "t"; "t"; "p"; ":"]))
    with (Some ["h"; "t"; "t"; "p"; ":"]).
  cbv beta iota zeta.
  change (hostlessProtocol ["h"; "t"; "t"; "p"; ":"]) with false.
  change (slashedProtocol ["h"; "t"; "t"; "p"; ":"]) with true.
  change (unsafeProtocol ["h"; "t"; "t"; "p"; ":"]) with false.
  change (isCode CHAR_FORWARD_SLASH "/") with true.
  cbn [andb orb negb skipn].
  rewrite (hostSection_plain h p Hne Hh Hlen Hshape).
  cbv beta iota zeta.
  rewrite autoEscapeStr_plain by exact Hp.
  rewrite (takeWhile_all _ p Hp3), (dropWhile_all _ p Hp3).
  rewrite (takeWhile_all _ p Hp5), (dropWhile_all _ p Hp5).
  destruct h as [|c t]; [contradiction|].
  destruct p as [|c' q]; reflexivity.
Qed.

Lemma parse_plain_path q :
  forallb plainPathChar q = true ->
  parse (str (slash :: q))
  = mkUrl None false None None (Some (str (slash :: q))) None None.
Proof.
  intros Hq.
  assert (Hp : forallb plainPathChar (slash :: q) = true) by exact Hq.
  destruct (quiet_plainPath _ Hp) as (Hp1 & Hp2 & Hp3 & _ & Hp5 & Hp6).
  unfold parse, str. rewrite list_ascii_of_string_of_list_ascii.
  rewrite trim_quiet by exact Hp1.
  rewrite convertBackslashes_quiet by exact Hp2.
  rewrite hasHash_quiet by exact Hp3.
  unfold simplePath. rewrite Hp6.
  rewrite (takeWhile_all _ _ Hp5), (dropWhile_all _ _ Hp5).
  change (isCode CHAR_FORWARD_SLASH slash) with true. cbn [andb].
  destruct q as [|c1 [|c2 q']]; try reflexivity.
  destruct (isCode CHAR_FORWARD_SLASH c1 && isCode CHAR_FORWARD_SLASH c2) eqn:E;
    [|reflexivity].
  apply andb_prop in E as [E1 E2].
  cbn [negb]. cbv beta iota zeta.
  change (protocolPattern (slash :: c1 :: c2 :: q')) with (@None (chars * chars)).
  cbv beta iota zeta.
  assert (Hhp : hostPattern (slash :: c1 :: c2 :: q') = false).
  { unfold hostPattern. rewrite E1.
    change (isCode CHAR_FORWARD_SLASH slash) with true. cbn [andb].
    assert (Hn : not_at_slash c2 = false)
      by (unfold not_at_slash; rewrite E2; now rewrite orb_true_r).
    simpl takeWhile. rewrite Hn. reflexivity. }
  rewrite Hhp. cbn [andb orb negb option_map].
  rewrite autoEscapeStr_plain by exact Hp.
  rewrite (takeWhile_all _ _ Hp3), (dropWhile_all _ _ Hp3).
  rewrite (takeWhile_all _ _ Hp5), (dropWhile_all _ _ Hp5).
  reflexivity.
Qed.

Lemma string_app_nil_r (s : string) : (s ++ "")%string = s.
Proof. induction s as [|c s IH]; simpl; [reflexivity | now rewrite IH]. Qed.

Lemma str_app (a b : chars) : str (a ++ b) = (str a ++ str b)%string.
Proof. induction a as [|c a IH]; simpl; [reflexivity | now rewrite IH]. Qed.

(** A plain http URL with no path, or with a path beyond the root, is its
    own canonical form, for every crawler. *)
Lemma cleanURL_plain_http_fixpoint (self : Crawler) h p :
  h <> [] -> forallb plainHostChar h = true -> (List.length h <= 255)%nat ->
  forallb plainPathChar p = true ->
  p = [] \/ (exists c q, p = slash :: c :: q) ->
  cleanURL parse self (Some (str (httpPrefix ++ h ++ p)))
  = Some (str (httpPrefix ++ h ++ p)).
Proof.
  intros Hne Hh Hlen Hp Hshape.
  unfold cleanURL.
  change (truthy (Some (str (httpPrefix ++ h ++ p)))) with true.
  cbn [negb orEmpty].
  rewrite parse_plain_http; try assumption.
  2:{ destruct Hshape as [-> | [c [q ->]]]; [now left | right; now exists (c :: q)]. }
  cbn [hostname protocol port pathname].
  destruct h as [|x h']; [contradiction|].
  destruct Hshape as [-> | [c [q ->]]].
  - simpl. rewrite !app_nil_r, string_app_nil_r. reflexivity.
  - simpl. rewrite !str_app. reflexivity.
Qed.

(** With or without a bare trailing slash, a plain http URL has the same
    canonical form: the one without the slash. *)
Lemma cleanURL_plain_trailing_slash (self : Crawler) h :
  h <> [] -> forallb plainHostChar h = true -> (List.length h <= 255)%nat ->
  cleanURL parse self (Some (str (httpPrefix ++ h ++ [slash])))
  = Some (str (httpPrefix ++ h))
  /\ cleanURL parse self (Some (str (httpPrefix ++ h)))
     = Some (str (httpPrefix ++ h)).
Proof.
  intros Hne Hh Hlen. split.
  - unfold cleanURL.
    change (truthy (Some (str (httpPrefix ++ h ++ [slash])))) with true.
    cbn [negb orEmpty].
    rewrite parse_plain_http; try assumption; [|reflexivity | right; now exists []].
    cbn [hostname protocol port pathname].
    destruct h as [|x h']; [contradiction|].
    simpl. rewrite string_app_nil_r. reflexivity.
  - rewrite <- (app_nil_r h) at 1 2.
    rewrite (cleanURL_plain_http_fixpoint self h []); try assumption;
      [now rewrite app_nil_r | reflexivity | now left].
Qed.

(** What the constructor keeps of a plain http seed. *)
Lemma newCrawler_plain_http h p options :
  h <> [] -> forallb plainHostChar h = true -> (List.length h <= 255)%nat ->
  forallb plainPathChar p = true ->
  p = [] \/ (exists q, p = slash :: q) ->
  newCrawler parse (str (httpPrefix ++ h ++ p)) options
  = Some (mkCrawler (str (httpPrefix ++ h ++ p)) (str h) (Some "http:"%string)
            None (match options with Some o => o | None => DEFAULT_OPTIONS end)).
Proof.
  intros Hne Hh Hlen Hp Hshape. unfold newCrawler.
  rewrite parse_plain_http by assumption. reflexivity.
Qed.

End PlainUrls.

(** C6. A bare trailing slash makes no difference: for every crawler,
    "http://h.com" and "http://h.com/" have the same canonical form, which is
    "http://h.com" (the root path "/" is left out). *)
Theorem cleanURL_trailing_slash (self : Crawler) :
  cleanURL NodeUrl.parse self (Some "http://h.com")
  = cleanURL NodeUrl.parse self (Some "http://h.com/")
  /\ cleanURL NodeUrl.parse self (Some "http://h.com/") = Some "http://h.com"
  /\ NodeUrl.pathname (NodeUrl.parse "http://h.com") = Some "/"
  /\ NodeUrl.pathname (NodeUrl.parse "http://h.com/") = Some "/".
Proof. repeat split. Qed.

(* ===================================================================== *)
(** ** The site, crawled *)
(* ===================================================================== *)

Section SiteFacts.

Local Open Scope Z_scope.
Local Open Scope list_scope.

Local Abbreviation siteCrawler := (Site.crawler Site.seed).

(** What the parser says about the strings the examples rely on. *)
Example parse_seed :
  NodeUrl.parse Site.seed
  = NodeUrl.mkUrl (Some "http:"%string) true (Some "a.test"%string) None
      (Some "/index.html"%string) None None.
Proof. reflexivity. Qed.

Example parse_relative :
  NodeUrl.parse "About.html"
  = NodeUrl.mkUrl None false None None (Some "About.html"%string) None None.
Proof. reflexivity. Qed.

Example parse_glued :
  NodeUrl.parse "http://a.testAbout.html"
  = NodeUrl.mkUrl (Some "http:"%string) true (Some "a.testabout.html"%string)
      None (Some "/"%string) None None.
Proof. reflexivity. Qed.

(** The default crawl of the site: four requests, two records.  The seed
    page comes without a Content-Length and is recorded with the length of
    its text; "/about" is recorded with its Content-Length. *)
Example default_crawl :
  Site.crawl Site.seed DEFAULT_OPTIONS 3
  = Resolved
      (mkState 3
         ["http://a.test/index.html"; "http://a.test/about";
          "http://a.test/gone"]%string
         [mkInfo "http://a.test/index.html" (numberOfZ 124);
          mkInfo "http://a.test/about" (numberOfZ 30)]
         [mkRequest "http://a.test/index.html" 0;
          mkRequest "http://a.test/index.html" 1;
          mkRequest "http://a.test/about" 2;
          mkRequest "http://a.test/gone" 3]).
Proof. vm_compute. reflexivity. Qed.

(** The crawl from the second entry point: the scan of its page is
    rejected at the first link, the JSON document, and the promise is never
    settled; the link after it is not looked at. *)
Example hub_crawl :
  Site.crawl Site.hub DEFAULT_OPTIONS 3
  = NeverSettled
      (mkState 1 ["http://a.test/data.json"%string] []
         [mkRequest "http://a.test/hub" 0;
          mkRequest "http://a.test/data.json" 1])
  /\ result (Site.crawl Site.hub DEFAULT_OPTIONS 3) = None.
Proof. vm_compute. split; reflexivity. Qed.

(** C1, the claim as stated fails.  With [maxDepth = 0] and
    [includeAssets = true] the seed page has an image that cheerio finds and
    the server would deliver, yet the run requests the seed alone and
    resolves with the empty list: the asset is not collected. *)
Lemma maxDepth_zero_drops_seed_assets :
  let o := mkOptions 0 true in
  Site.axios_get 0 Site.seed = Reply (mkResponse 200 None Site.home)
  /\ Site.cheerio Site.home "img" "src" = [Some "/logo.png"%string]
  /\ cleanURL NodeUrl.parse (siteCrawler o) (Some "/logo.png"%string)
     = Some "http://a.test/logo.png"%string
  /\ isSuccessResponse (Site.axios_get 1 "http://a.test/logo.png") = true
  /\ result (Site.crawl Site.seed o 3) = Some []
  /\ map req_url (requests (finalState (Site.crawl Site.seed o 3)))
     = [Site.seed].
Proof. vm_compute. repeat split. Qed.

Lemma maxDepth_zero_fetches_nothing_witness :
  let o := mkOptions 0 true in
  maxDepth (CRAWLER_OPTIONS (siteCrawler o)) = 0
  /\ finalState (Site.crawl Site.seed o 3) = seedState (siteCrawler o)
  /\ result (Site.crawl Site.seed o 3) = Some [].
Proof.
  split; [reflexivity|].
  destruct (maxDepth_zero_fetches_nothing NodeUrl.parse
              (siteCrawler (mkOptions 0 true)) Site.axios_get Site.cheerio 2
              eq_refl) as [_ [H1 H2]].
  split; [|exact H2].
  unfold Site.crawl. rewrite H1. reflexivity.
Defined.

(** C2, on the code.  The seed is requested by [run] without being pushed
    on the visited list; the link to "/index.html" on the seed page then
    canonicalises to the seed URL, is admitted as new, and the seed is
    requested a second time. *)
Theorem seed_is_requested_twice :
  let st := finalState (Site.crawl Site.seed DEFAULT_OPTIONS 3) in
  cleanURL NodeUrl.parse (siteCrawler DEFAULT_OPTIONS)
    (Some "/index.html"%string) = Some Site.seed
  /\ map req_url (requests st)
     = [Site.seed; Site.seed; "http://a.test/about"; "http://a.test/gone"]%string
  /\ count_occ string_dec (map req_url (requests st)) Site.seed = 2%nat
  /\ count_occ string_dec (scannedHosts st) Site.seed = 1%nat.
Proof. vm_compute. repeat split. Qed.

(** C4: a seed the server does not have. *)
Lemma failed_seed_never_resolves_witness :
  let c := Site.crawler "http://a.test/gone" DEFAULT_OPTIONS in
  isSuccessResponse (Site.axios_get 0 (URL c)) = false
  /\ run NodeUrl.parse c Site.axios_get Site.cheerio 3
     = NeverSettled (seedState c)
  /\ result (run NodeUrl.parse c Site.axios_get Site.cheerio 3) = None.
Proof.
  split; [reflexivity|].
  apply (failed_seed_never_resolves NodeUrl.parse
           (Site.crawler "http://a.test/gone" DEFAULT_OPTIONS)
           Site.axios_get Site.cheerio 3).
  reflexivity.
Defined.

(** C5, on the code.  [cleanURL] writes nothing between the host name and
    the path: a relative path without a leading slash is glued to the host
    name.  Parsed again, the glued text is a host name, which the parser
    lower-cases, so the second pass changes the string: canonicalisation is
    not idempotent. *)
Theorem cleanURL_is_not_idempotent :
  let c := siteCrawler DEFAULT_OPTIONS in
  cleanURL NodeUrl.parse c (Some "About.html"%string)
  = Some "http://a.testAbout.html"%string
  /\ cleanURL NodeUrl.parse c (Some "http://a.testAbout.html"%string)
     = Some "http://a.testabout.html"%string
  /\ "http://a.testabout.html"%string <> "http://a.testAbout.html"%string.
Proof. repeat split. discriminate. Qed.

(** C8: the first link of the page "/hub", a JSON document delivered
    without a Content-Length. *)
Lemma non_text_body_is_not_recorded_witness :
  let c := Site.crawler Site.hub DEFAULT_OPTIONS in
  let scan := scanPage NodeUrl.parse c Site.axios_get Site.cheerio 2 in
  let u := "http://a.test/data.json"%string in
  let r := mkResponse 200 None Site.document in
  atMaxDepth c (seedState c) = false
  /\ isRoot (Some "/data.json"%string) = false
  /\ cleanURL NodeUrl.parse c (Some "/data.json"%string) = Some u
  /\ admissible (Some u) (seedState c) = true
  /\ Site.axios_get 1 u = Reply r
  /\ 200 <= status r < 300
  /\ falsy (toNumber (content_length r)) = true
  /\ data r = Parsed "{}"
  /\ downloadSize r = None
  /\ selectorLoop NodeUrl.parse c Site.axios_get scan true
       [Some "/data.json"%string; Some "/about"%string] (seedState c)
     = Rejected (mkState 1 [u] []
                   [mkRequest "http://a.test/hub" 0; mkRequest u 1]).
Proof.
  intros c scan u r.
  repeat (split; [first [reflexivity | simpl; lia]|]).
  apply (non_text_body_is_not_recorded NodeUrl.parse c Site.axios_get scan
           true (Some "/data.json"%string) [Some "/about"%string]
           (seedState c) u r "{}");
    first [reflexivity | simpl; lia].
Defined.

(** C9: the default crawl, with [maxDepth = 10]. *)
Lemma depth_never_exceeds_maxDepth_witness :
  let c := siteCrawler DEFAULT_OPTIONS in
  0 <= maxDepth (CRAWLER_OPTIONS c)
  /\ bounded 0 10 (finalState (Site.crawl Site.seed DEFAULT_OPTIONS 3)).
Proof.
  intros c. split; [simpl; lia|].
  apply (depth_never_exceeds_maxDepth NodeUrl.parse c Site.axios_get
           Site.cheerio 3).
  simpl. lia.
Defined.

(** C10: the link "/gone" of the seed page, which the server does not
    have, followed by the link "/about", which it has. *)
Lemma failed_link_fetch_is_not_rolled_back_witness :
  let c := siteCrawler DEFAULT_OPTIONS in
  let scan := scanPage NodeUrl.parse c Site.axios_get Site.cheerio 2 in
  let u := "http://a.test/gone"%string in
  let st := seedState c in
  let st' := stateOf (selectorLoop NodeUrl.parse c Site.axios_get scan true
                        [Some "/gone"%string; Some "/about"%string] st) in
  atMaxDepth c st = false
  /\ isRoot (Some "/gone"%string) = false
  /\ cleanURL NodeUrl.parse c (Some "/gone"%string) = Some u
  /\ admissible (Some u) st = true
  /\ isSuccessResponse (Site.axios_get (List.length (requests st)) u) = false
  /\ In u (scannedHosts st')
  /\ currentDepth st + 1 <= currentDepth st'
  /\ count_occ string_dec (map req_url (requests st')) u = 1%nat
  /\ count_occ string_dec (map resource (scannedResourceInfo st')) u = 0%nat.
Proof.
  intros c scan u st st'.
  do 5 (split; [reflexivity|]).
  destruct (failed_link_fetch_is_not_rolled_back NodeUrl.parse c
              Site.axios_get Site.cheerio 2 (Some "/gone"%string)
              [Some "/about"%string] st u eq_refl eq_refl eq_refl eq_refl
              eq_refl) as [_ [H _]].
  exact H.
Defined.

End SiteFacts.

(* ===================================================================== *)
(** ** Further properties of the traversal *)
(* ===================================================================== *)

Section MoreTraversal.

Local Open Scope Z_scope.
Local Open Scope list_scope.

Variable url_parse : string -> NodeUrl.Url.
Variable self : Crawler.
Variable axios_get : nat -> string -> Response.
Variable cheerio : Data -> string -> string -> list (option string).

Local Abbreviation visit := (visit axios_get).
Local Abbreviation visits := (visits self axios_get).
Local Abbreviation visitsWhere := (visitsWhere self axios_get).
Local Abbreviation seedState := (seedState self).
Local Abbreviation loop := (selectorLoop url_parse self axios_get).
Local Abbreviation read := (readResourceContent url_parse self axios_get cheerio).
Local Abbreviation scanPageN := (scanPage url_parse self axios_get cheerio).
Local Abbreviation runN := (run url_parse self axios_get cheerio).
Local Abbreviation maxD := (maxDepth (CRAWLER_OPTIONS self)).

Lemma visitsWhere_trans P st1 st2 st3 :
  visitsWhere P st1 st2 -> visitsWhere P st2 st3 -> visitsWhere P st1 st3.
Proof.
  intros H12 H23. induction H23; [exact H12 | now apply visitsWhere_step].
Qed.

Lemma visitsWhere_visits P st st' : visitsWhere P st st' -> visits st st'.
Proof.
  induction 1; [apply visits_refl | now apply visits_step].
Qed.

Lemma admissible_defined path st :
  admissible (cleanURL url_parse self path) st = true ->
  cleanURL url_parse self path
  = Some (orEmpty (cleanURL url_parse self path)).
Proof.
  unfold admissible. destruct (cleanURL url_parse self path); [reflexivity|].
  discriminate.
Qed.

Section LoopsVisitWhere.

Variable P : string -> bool -> Prop.
Variable scan : Data -> CrawlerState -> Async.
Variable b : bool.
Hypothesis scan_where :
  forall content st, visitsWhere P st (stateOf (scan content st)).
Hypothesis candidates :
  forall path u, isRoot path = false -> cleanURL url_parse self path = Some u ->
                 P u b.

Lemma selectorLoop_visitsWhere paths st :
  visitsWhere P st (stateOf (loop scan b paths st)).
Proof.
  revert st. induction paths as [|path rest IH]; intros st.
  - apply visitsWhere_refl.
  - destruct (atMaxDepth self st) eqn:Hg.
    { rewrite selectorLoop_gate by exact Hg. apply visitsWhere_refl. }
    destruct (isRoot path) eqn:Hr.
    { rewrite selectorLoop_root by exact Hr. apply IH. }
    destruct (admissible (cleanURL url_parse self path) st) eqn:Ha.
    2:{ rewrite selectorLoop_skip by assumption. apply IH. }
    rewrite selectorLoop_admit by assumption.
    assert (Hv : visitsWhere P st
                   (visit (orEmpty (cleanURL url_parse self path)) b st)).
    { apply visitsWhere_step; try assumption.
      - apply visitsWhere_refl.
      - apply (candidates path); [exact Hr | exact (admissible_defined _ _ Ha)].
      - now apply admissible_fresh. }
    set (st' := visit _ b st) in *.
    destruct (afterVisit _ _ _) as [content| |].
    + pose proof (scan_where content st') as Hs.
      destruct (scan content st') as [st''|st''|st'']; simpl in *.
      * eapply visitsWhere_trans; [|apply IH].
        eapply visitsWhere_trans; eassumption.
      * eapply visitsWhere_trans; eassumption.
      * eapply visitsWhere_trans; eassumption.
    + eapply visitsWhere_trans; [exact Hv | apply IH].
    + exact Hv.
Qed.

Lemma readResourceContent_visitsWhere content resources st :
  visitsWhere P st (stateOf (read scan content resources b st)).
Proof.
  revert st. induction resources as [|r rest IH]; intros st; simpl.
  - apply visitsWhere_refl.
  - pose proof (selectorLoop_visitsWhere
                  (cheerio content (selector r) (attribute r)) st) as Hl.
    destruct (selectorLoop _ _ _ _ _ _ _) as [st'|st'|st']; simpl in *.
    + eapply visitsWhere_trans; [exact Hl | apply IH].
    + exact Hl.
    + exact Hl.
Qed.

End LoopsVisitWhere.

Lemma scanPage_scanned fuel content st :
  visitsWhere (scanned url_parse self) st
    (stateOf (scanPageN fuel content st)).
Proof.
  revert content st. induction fuel as [|fuel IH]; intros content st.
  - apply visitsWhere_refl.
  - rewrite scanPage_S.
    destruct (includeAssets (CRAWLER_OPTIONS self)) eqn:Hassets.
    + unfold scanResourceAsset, scanResourceLink.
      pose proof (readResourceContent_visitsWhere (scanned url_parse self)
                    (scanPageN fuel) false IH) as Ha.
      specialize (Ha (fun path u Hr Hc =>
                        conj (fun _ => Hassets)
                             (ex_intro _ path (conj Hr Hc)))
                     content ASSET_RESOURCES st).
      destruct (readResourceContent _ _ _ _ _ _ ASSET_RESOURCES _ _)
        as [st'|st'|st']; unfold await; [|exact Ha..].
      eapply visitsWhere_trans; [exact Ha|].
      apply readResourceContent_visitsWhere; [exact IH|].
      intros path u Hr Hc. split; [discriminate | now exists path].
    + unfold await at 1. unfold scanResourceLink.
      apply readResourceContent_visitsWhere; [exact IH|].
      intros path u Hr Hc. split; [discriminate | now exists path].
Qed.

Lemma run_scanned fuel :
  visitsWhere (scanned url_parse self) seedState (finalState (runN fuel)).
Proof.
  unfold run, fetchPageContent. simpl.
  destruct (axios_get 0 (URL self)) as [r|]; simpl; [|apply visitsWhere_refl].
  destruct (Z.leb 200 (status r) && Z.ltb (status r) 300); simpl;
    [|apply visitsWhere_refl].
  pose proof (scanPage_scanned fuel (data r) seedState) as H.
  unfold seedState in *.
  destruct (scanPage _ _ _ _ _ _ _); simpl in *; exact H.
Qed.

Lemma link_visits_count st st' :
  includeAssets (CRAWLER_OPTIONS self) = false ->
  visitsWhere (scanned url_parse self) st st' ->
  currentDepth st' - currentDepth st
  = Z.of_nat (List.length (scannedHosts st'))
    - Z.of_nat (List.length (scannedHosts st)).
Proof.
  intros Hno H. induction H as [|st' u b _ IH [Hb _] Hu Hg]; [lia|].
  destruct b; [|rewrite (Hb eq_refl) in Hno; discriminate].
  rewrite visit_depth, visit_hosts, length_app. simpl List.length. lia.
Qed.

(** X1. In a run that follows links only, the depth counter counts the
    admitted hosts: it equals the length of the visited list, one request
    was made per host besides the seed's, and with [maxDepth >= 0] at most
    [maxDepth] hosts are ever requested, whatever the shape of the site. *)
Theorem link_only_run_spends_one_depth_per_host fuel :
  includeAssets (CRAWLER_OPTIONS self) = false ->
  let st := finalState (run url_parse self axios_get cheerio fuel) in
  currentDepth st = Z.of_nat (List.length (scannedHosts st))
  /\ List.length (requests st) = S (List.length (scannedHosts st))
  /\ (maxDepth (CRAWLER_OPTIONS self) < 0
      \/ Z.of_nat (List.length (scannedHosts st))
         <= maxDepth (CRAWLER_OPTIONS self)).
Proof.
  intros Hno st.
  pose proof (link_visits_count _ _ Hno (run_scanned fuel)) as Hc.
  fold st in Hc. simpl in Hc.
  assert (Hd : currentDepth st = Z.of_nat (List.length (scannedHosts st)))
    by lia.
  split; [exact Hd|]. split.
  - destruct (requests_follow_admissions url_parse self axios_get cheerio fuel)
      as [Hr _]. fold st in Hr.
    rewrite <- (length_map req_url), Hr. reflexivity.
  - destruct (Z.ltb_spec (maxDepth (CRAWLER_OPTIONS self)) 0) as [Hneg|Hpos];
      [now left | right].
    rewrite <- Hd.
    apply (visits_depth_max self axios_get seedState st).
    + apply run_visits.
    + simpl. exact Hpos.
Qed.

(** *** Where the visited hosts come from *)

Lemma fetched_mono content k st st' :
  fetched axios_get content k st -> visits st st' ->
  fetched axios_get content k st'.
Proof.
  intros (n & url & d & r & Hn & Hnth & Hq & Hs & Hd) Hv.
  destruct (visits_requests _ _ _ _ Hv) as [more E].
  exists n, url, d, r. repeat split; try assumption.
  rewrite E, nth_error_app1; [exact Hnth|].
  apply nth_error_Some. now rewrite Hnth.
Qed.

Lemma fetched_weaken content k k' st :
  (k <= k')%nat -> fetched axios_get content k st ->
  fetched axios_get content k' st.
Proof.
  intros Hk (n & url & d & r & Hn & H). exists n, url, d, r.
  split; [lia | exact H].
Qed.

Lemma found_mono k st st' u b :
  found url_parse self axios_get cheerio k st u b -> visits st st' ->
  found url_parse self axios_get cheerio k st' u b.
Proof.
  intros (content & rule & path & Hf & H) Hv.
  exists content, rule, path. split; [|exact H].
  now apply (fetched_mono _ _ st).
Qed.

Lemma visitsFound_trans st1 st2 st3 :
  visitsFound url_parse self axios_get cheerio st1 st2 ->
  visitsFound url_parse self axios_get cheerio st2 st3 ->
  visitsFound url_parse self axios_get cheerio st1 st3.
Proof.
  intros H12 H23. induction H23; [exact H12 | now apply visitsFound_step].
Qed.

Lemma visitsFound_visits st st' :
  visitsFound url_parse self axios_get cheerio st st' -> visits st st'.
Proof.
  induction 1; [apply visits_refl | now apply visits_step].
Qed.

Lemma requests_grow st st' :
  visits st st' ->
  (List.length (requests st) <= List.length (requests st'))%nat.
Proof.
  intros Hv. destruct (visits_requests _ _ _ _ Hv) as [more E].
  rewrite E, length_app. lia.
Qed.

(** A body about to be scanned was fetched by the request just made. *)
Lemma afterVisit_scan u b st content :
  afterVisit self (axios_get (List.length (requests st)) u) (visit u b st)
  = ScanBody content ->
  fetched axios_get content (List.length (requests (visit u b st)))
    (visit u b st).
Proof.
  unfold afterVisit.
  destruct (axios_get (List.length (requests st)) u) as [r|] eqn:Hq;
    [|discriminate].
  destruct (isSuccessResponse (Reply r)) eqn:Hs; [|discriminate].
  destruct (downloadSize r) as [size|]; [|discriminate].
  destruct (mayDescend self _); [|discriminate].
  intros [= <-].
  exists (List.length (requests st)), u, (currentDepth (visit u b st)), r.
  rewrite visit_requests. repeat split; try assumption.
  - rewrite length_app. simpl. lia.
  - rewrite nth_error_app2, Nat.sub_diag by lia. reflexivity.
Qed.

Section LoopsFound.

Variable scan : Data -> CrawlerState -> Async.
Variable b : bool.
Hypothesis scan_found :
  forall content st,
    fetched axios_get content (List.length (requests st)) st ->
    visitsFound url_parse self axios_get cheerio st (stateOf (scan content st)).

Lemma selectorLoop_visitsFound content rule paths st :
  In rule (rulesOf self b) ->
  incl paths (cheerio content (selector rule) (attribute rule)) ->
  fetched axios_get content (List.length (requests st)) st ->
  visitsFound url_parse self axios_get cheerio st
    (stateOf (loop scan b paths st)).
Proof.
  intros Hrule. revert st.
  induction paths as [|path rest IH]; intros st Hin Hf.
  - apply visitsFound_refl.
  - assert (Hrest : incl rest
                      (cheerio content (selector rule) (attribute rule)))
      by (intros x Hx; apply Hin; now right).
    destruct (atMaxDepth self st) eqn:Hg.
    { rewrite selectorLoop_gate by exact Hg. apply visitsFound_refl. }
    destruct (isRoot path) eqn:Hr.
    { rewrite selectorLoop_root by exact Hr. now apply IH. }
    destruct (admissible (cleanURL url_parse self path) st) eqn:Ha.
    2:{ rewrite selectorLoop_skip by assumption. now apply IH. }
    rewrite selectorLoop_admit by assumption.
    set (u := orEmpty (cleanURL url_parse self path)).
    assert (Hv : visitsFound url_parse self axios_get cheerio st
                   (visit u b st)).
    { apply visitsFound_step; try assumption.
      - apply visitsFound_refl.
      - exists content, rule, path. repeat split; try assumption.
        + apply Hin. now left.
        + exact (admissible_defined _ _ Ha).
      - now apply admissible_fresh. }
    assert (Hkeep : forall st',
               visits (visit u b st) st' ->
               fetched axios_get content (List.length (requests st')) st').
    { intros st' Hv'.
      assert (Hall : visits st st')
        by (eapply visits_trans; [exact (visitsFound_visits _ _ Hv) | exact Hv']).
      apply (fetched_weaken _ (List.length (requests st)));
        [now apply requests_grow | now apply (fetched_mono _ _ st)]. }
    destruct (afterVisit self _ (visit u b st)) as [content'| |] eqn:Hn.
    + pose proof (scan_found content' (visit u b st)
                    (afterVisit_scan _ _ _ _ Hn)) as Hs.
      destruct (scan content' (visit u b st)) as [st''|st''|st''];
        simpl in *.
      * eapply visitsFound_trans; [exact Hv|].
        eapply visitsFound_trans; [exact Hs|].
        apply IH; [exact Hrest|]. apply Hkeep.
        exact (visitsFound_visits _ _ Hs).
      * eapply visitsFound_trans; eassumption.
      * eapply visitsFound_trans; eassumption.
    + eapply visitsFound_trans; [exact Hv|].
      apply IH; [exact Hrest|]. apply Hkeep. apply visits_refl.
    + exact Hv.
Qed.

Lemma readResourceContent_visitsFound content resources st :
  incl resources (rulesOf self b) ->
  fetched axios_get content (List.length (requests st)) st ->
  visitsFound url_parse self axios_get cheerio st
    (stateOf (read scan content resources b st)).
Proof.
  revert st. induction resources as [|r rest IH]; intros st Hin Hf; simpl.
  - apply visitsFound_refl.
  - assert (Hr : In r (rulesOf self b)) by (apply Hin; now left).
    pose proof (selectorLoop_visitsFound content r
                  (cheerio content (selector r) (attribute r)) st Hr
                  (incl_refl _) Hf) as Hl.
    destruct (selectorLoop _ _ _ _ _ _ _) as [st'|st'|st']; simpl in *;
      try exact Hl.
    eapply visitsFound_trans; [exact Hl|].
    apply IH; [intros x Hx; apply Hin; now right|].
    pose proof (visitsFound_visits _ _ Hl) as Hv.
    apply (fetched_weaken _ (List.length (requests st)));
      [now apply requests_grow | now apply (fetched_mono _ _ st)].
Qed.

End LoopsFound.

Lemma scanPage_found fuel content st :
  fetched axios_get content (List.length (requests st)) st ->
  visitsFound url_parse self axios_get cheerio st
    (stateOf (scanPageN fuel content st)).
Proof.
  revert content st. induction fuel as [|fuel IH]; intros content st Hf.
  - apply visitsFound_refl.
  - rewrite scanPage_S. unfold scanResourceAsset, scanResourceLink.
    assert (Hlink : incl [LINK_RESOURCE] (rulesOf self true))
      by apply incl_refl.
    destruct (includeAssets (CRAWLER_OPTIONS self)) eqn:Hassets.
    + assert (Hasset : incl ASSET_RESOURCES (rulesOf self false))
        by (unfold rulesOf; rewrite Hassets; apply incl_refl).
      pose proof (readResourceContent_visitsFound (scanPageN fuel) false IH
                    content ASSET_RESOURCES st Hasset Hf) as Ha.
      destruct (readResourceContent _ _ _ _ _ _ ASSET_RESOURCES _ _)
        as [st'|st'|st']; unfold await; simpl in Ha; try exact Ha.
      eapply visitsFound_trans; [exact Ha|].
      apply readResourceContent_visitsFound; [exact IH | exact Hlink |].
      pose proof (visitsFound_visits _ _ Ha) as Hv.
      apply (fetched_weaken _ (List.length (requests st)));
        [now apply requests_grow | now apply (fetched_mono _ _ st)].
    + unfold await at 1.
      now apply readResourceContent_visitsFound.
Qed.

Lemma run_found fuel :
  visitsFound url_parse self axios_get cheerio seedState
    (finalState (runN fuel)).
Proof.
  unfold run, fetchPageContent. simpl List.length. simpl app.
  destruct (axios_get 0 (URL self)) as [r|] eqn:Hq;
    [|apply visitsFound_refl].
  destruct (isSuccessResponse (Reply r)) eqn:Hs; [|apply visitsFound_refl].
  assert (Hf : fetched axios_get (data r) (List.length (requests seedState))
                 seedState).
  { exists 0%nat, (URL self), 0, r. repeat split; try assumption.
    simpl. lia. }
  pose proof (scanPage_found fuel (data r) seedState Hf) as H.
  unfold seedState in *.
  match goal with
  | |- context [scanPage _ _ _ _ fuel ?c ?s] =>
      change s with (mkState 0 [] [] [mkRequest (URL self) 0]);
      destruct (scanPage url_parse self axios_get cheerio fuel c
                  (mkState 0 [] [] [mkRequest (URL self) 0]))
  end; simpl in *; exact H.
Qed.

Lemma visitsFound_placed st st' :
  visitsFound url_parse self axios_get cheerio st st' ->
  placed url_parse self axios_get cheerio st ->
  placed url_parse self axios_get cheerio st'.
Proof.
  intros Hv H0. induction Hv as [|st' u b Hv' [IHlen IH] Hfound Hu Hg];
    [exact H0|].
  pose proof (visits_one self axios_get st' u b Hu Hg) as Hone.
  split.
  - rewrite visit_hosts, visit_requests, !length_app. simpl. lia.
  - intros i v Hi. rewrite visit_hosts in Hi.
    destruct (Nat.lt_ge_cases i (List.length (scannedHosts st'))) as [Hlt|Hge].
    + rewrite nth_error_app1 in Hi by exact Hlt.
      destruct (IH i v Hi) as [[d Hd] [b' Hb']]. split.
      * exists d. rewrite visit_requests, nth_error_app1; [exact Hd|].
        apply nth_error_Some. now rewrite Hd.
      * exists b'. now apply (found_mono _ st').
    + rewrite nth_error_app2 in Hi by exact Hge.
      destruct (i - List.length (scannedHosts st'))%nat as [|k] eqn:Hk;
        [|destruct k; discriminate].
      injection Hi as <-.
      assert (Hi' : S i = List.length (requests st')) by lia.
      split.
      * exists (currentDepth (visit u b st')).
        rewrite visit_requests, nth_error_app2 by lia.
        now rewrite Hi', Nat.sub_diag.
      * exists b. rewrite Hi'. now apply (found_mono _ st').
Qed.

(** X2. Every host on the visited list of a run is a non-empty string, the
    canonical form of an attribute value other than "/" that cheerio found,
    under the link rule or, when assets are included, an asset rule, on the
    body of a successful answer to an earlier request of the run: host
    number [i] was found on the answer to one of the requests 0 to [i], and
    was itself the object of request [i + 1]. *)
Theorem visited_hosts_are_found_on_fetched_pages fuel i u :
  nth_error
    (scannedHosts (finalState (run url_parse self axios_get cheerio fuel))) i
  = Some u ->
  truthy (Some u) = true
  /\ (exists depth,
        nth_error
          (requests (finalState (run url_parse self axios_get cheerio fuel)))
          (S i)
        = Some (mkRequest u depth))
  /\ exists n url depth r rule path,
       (n <= i)%nat
       /\ nth_error
            (requests (finalState (run url_parse self axios_get cheerio fuel)))
            n
          = Some (mkRequest url depth)
       /\ axios_get n url = Reply r
       /\ isSuccessResponse (Reply r) = true
       /\ In rule (LINK_RESOURCE
                   :: (if includeAssets (CRAWLER_OPTIONS self)
                       then ASSET_RESOURCES else []))
       /\ In path (cheerio (data r) (selector rule) (attribute rule))
       /\ isRoot path = false
       /\ cleanURL url_parse self path = Some u.
Proof.
  intros Hi.
  assert (H0 : placed url_parse self axios_get cheerio seedState).
  { split; [reflexivity|]. intros j v Hj. destruct j; discriminate. }
  destruct (visitsFound_placed _ _ (run_found fuel) H0) as [_ H].
  destruct (H i u Hi) as [Hreq [b (content & rule & path & Hf & Hrule & Hin
                                     & Hr & Hc)]].
  destruct Hf as (n & url & d & r & Hn & Hnth & Hq & Hs & Hd).
  split; [exact (cleanURL_truthy _ _ _ _ Hc)|]. split; [exact Hreq|].
  exists n, url, d, r, rule, path. rewrite Hd.
  repeat split; try assumption; [lia|].
  unfold rulesOf in Hrule. destruct b.
  - destruct Hrule as [<- | []]. now left.
  - right. exact Hrule.
Qed.

(** X3. No URL other than the seed is requested more than once in a run,
    and the seed is requested at most twice. *)
Theorem request_counts_per_url fuel u :
  (count_occ string_dec
     (map req_url
        (requests (finalState (run url_parse self axios_get cheerio fuel)))) u
   <= if string_dec (URL self) u then 2 else 1)%nat.
Proof.
  destruct (requests_follow_admissions url_parse self axios_get cheerio fuel)
    as [Hr Hn].
  rewrite Hr. simpl count_occ.
  pose proof (proj1 (NoDup_count_occ string_dec _) Hn u) as Hle.
  destruct (string_dec (URL self) u); lia.
Qed.

(** X4. Every record of a run is for a host on the visited list, so there
    are no more records than admitted hosts, and the seed has a record only
    if some page linked back to it. *)
Theorem records_are_for_visited_hosts fuel :
  let st := finalState (run url_parse self axios_get cheerio fuel) in
  incl (map resource (scannedResourceInfo st)) (scannedHosts st)
  /\ (List.length (scannedResourceInfo st)
      <= List.length (scannedHosts st))%nat.
Proof.
  intros st.
  destruct (visits_extends _ _ _ _ (run_visits url_parse self axios_get cheerio fuel))
    as [new [recs E]].
  destruct E as [Eh Er Ef En Ei Ec Ed Ez]. fold st in Eh, Ei.
  simpl in Eh, Ei. rewrite Eh, Ei. split; [exact Ec|].
  rewrite <- (length_map resource). now apply NoDup_incl_length.
Qed.

Lemma visits_depth_step st st' :
  visits st st' ->
  currentDepth st' - currentDepth st
  <= Z.of_nat (List.length (scannedHosts st'))
     - Z.of_nat (List.length (scannedHosts st)).
Proof.
  induction 1 as [|st' u b _ IH Hu Hg]; [lia|].
  rewrite visit_depth, visit_hosts, length_app. simpl List.length.
  destruct b; lia.
Qed.

(** X5. A scan only appends: whatever page is scanned from whatever fields,
    the visited list and the record list keep what they held, in place, and
    the depth counter does not go down; it goes up by at most the number of
    hosts the scan admitted. *)
Theorem scanPage_only_appends fuel content st :
  let st' := stateOf (scanPage url_parse self axios_get cheerio fuel content st) in
  exists new recs,
    scannedHosts st' = scannedHosts st ++ new
    /\ scannedResourceInfo st' = scannedResourceInfo st ++ recs
    /\ currentDepth st <= currentDepth st'
       <= currentDepth st + Z.of_nat (List.length new).
Proof.
  intros st'.
  pose proof (scanPage_visits url_parse self axios_get cheerio fuel content st)
    as Hv. fold st' in Hv.
  destruct (visits_extends _ _ _ _ Hv) as [new [recs E]].
  pose proof (visits_depth_step _ _ Hv) as Hs.
  destruct E as [Eh Er Ef En Ei Ec Ed Ez].
  exists new, recs. rewrite Eh, length_app in Hs.
  repeat split; try assumption. lia.
Qed.

(** X6. Once the depth counter equals [maxDepth] the crawl is over: no
    later state of the traversal differs from the current one, and a scan
    of any page, for any rule set, changes nothing and requests nothing. *)
Theorem exhausted_budget_ends_the_crawl fuel scan content resources b st :
  atMaxDepth self st = true ->
  (forall st', visits st st' -> st' = st)
  /\ readResourceContent url_parse self axios_get cheerio scan content
       resources b st = Settled st
  /\ scanPage url_parse self axios_get cheerio (S fuel) content st = Settled st.
Proof.
  intros Hg. split; [|split].
  - intros st' Hv. induction Hv as [|st' u b' _ IH Hu Hg']; [reflexivity|].
    rewrite IH in Hg'. rewrite Hg in Hg'. discriminate.
  - now apply readResourceContent_gate.
  - now apply scanPage_gate.
Qed.

(** *** Candidates the loop passes over *)

Lemma spent_visits path st st' :
  spent url_parse self path st = true -> visits st st' ->
  spent url_parse self path st' = true.
Proof.
  unfold spent, admissible. intros Hs Hv.
  destruct (isRoot path); [reflexivity|]. simpl in *.
  destruct (truthy (cleanURL url_parse self path)); [|reflexivity].
  simpl in *. rewrite negb_involutive in *.
  apply includes_In in Hs. apply includes_In.
  destruct (visits_extends _ _ _ _ Hv) as [new [recs E]].
  rewrite (ext_hosts _ _ _ _ E). apply in_or_app. now left.
Qed.

Lemma selectorLoop_spent scan b path rest st :
  spent url_parse self path st = true ->
  loop scan b (path :: rest) st = loop scan b rest st.
Proof.
  intros Hs. destruct (atMaxDepth self st) eqn:Hg.
  { now rewrite !selectorLoop_gate by exact Hg. }
  unfold spent in Hs. destruct (isRoot path) eqn:Hr.
  { now apply selectorLoop_root. }
  apply selectorLoop_skip; [exact Hg|]. simpl in Hs.
  now apply negb_true_iff in Hs.
Qed.

Lemma selectorLoop_congr scan b l1 l2 :
  (forall st, loop scan b l1 st = loop scan b l2 st) ->
  forall pre st, loop scan b (pre ++ l1) st = loop scan b (pre ++ l2) st.
Proof.
  intros H pre. induction pre as [|path pre IH]; intros st; [apply H|].
  rewrite <- !app_comm_cons.
  destruct (atMaxDepth self st) eqn:Hg.
  { now rewrite !selectorLoop_gate by exact Hg. }
  destruct (isRoot path) eqn:Hr.
  { rewrite !selectorLoop_root by exact Hr. apply IH. }
  destruct (admissible (cleanURL url_parse self path) st) eqn:Ha.
  2:{ rewrite !selectorLoop_skip by assumption. apply IH. }
  rewrite !selectorLoop_admit by assumption.
  destruct (afterVisit _ _ _) as [content| |]; [|apply IH | reflexivity].
  apply await_ext. intros st'. apply IH.
Qed.

Section Erase.

Variable scan : Data -> CrawlerState -> Async.
Hypothesis scan_visits : forall content st, visits st (stateOf (scan content st)).

Lemma selectorLoop_erase_spent b path mid post st :
  spent url_parse self path st = true ->
  loop scan b (mid ++ path :: post) st = loop scan b (mid ++ post) st.
Proof.
  revert st. induction mid as [|x mid IH]; intros st Hs.
  - now apply selectorLoop_spent.
  - rewrite <- !app_comm_cons.
    destruct (atMaxDepth self st) eqn:Hg.
    { now rewrite !selectorLoop_gate by exact Hg. }
    destruct (isRoot x) eqn:Hr.
    { rewrite !selectorLoop_root by exact Hr. now apply IH. }
    destruct (admissible (cleanURL url_parse self x) st) eqn:Ha.
    2:{ rewrite !selectorLoop_skip by assumption. now apply IH. }
    rewrite !selectorLoop_admit by assumption.
    pose proof (visits_one self axios_get st _ b
                  (admissible_fresh _ _ _ _ Ha) Hg) as Hv.
    pose proof (spent_visits _ _ _ Hs Hv) as Hs'.
    destruct (afterVisit _ _ _) as [content| |];
      [|now apply IH | reflexivity].
    pose proof (scan_visits content
                  (visit (orEmpty (cleanURL url_parse self x)) b st)) as Hw.
    destruct (scan content _) as [st''|st''|st'']; simpl in *;
      [|reflexivity..].
    apply IH. now apply (spent_visits _ _ _ Hs').
Qed.

Lemma selectorLoop_erase_repeat b p p' mid post st :
  isRoot p = false ->
  cleanURL url_parse self p' = cleanURL url_parse self p ->
  loop scan b (p :: mid ++ p' :: post) st = loop scan b (p :: mid ++ post) st.
Proof.
  intros Hr Hc.
  destruct (atMaxDepth self st) eqn:Hg.
  { now rewrite !selectorLoop_gate by exact Hg. }
  destruct (admissible (cleanURL url_parse self p) st) eqn:Ha.
  2:{ rewrite !selectorLoop_skip by assumption.
      apply selectorLoop_erase_spent. unfold spent. rewrite Hc, Ha.
      apply orb_true_r. }
  rewrite !selectorLoop_admit by assumption.
  set (u := orEmpty (cleanURL url_parse self p)).
  assert (Hs : spent url_parse self p' (visit u b st) = true).
  { unfold spent, admissible. rewrite Hc, visit_hosts.
    fold u. replace (includes (scannedHosts st ++ [u]) u) with true.
    - rewrite andb_false_r. apply orb_true_r.
    - symmetry. apply includes_In, in_or_app. right. now left. }
  destruct (afterVisit _ _ _) as [content| |];
    [|now apply selectorLoop_erase_spent | reflexivity].
  pose proof (scan_visits content (visit u b st)) as Hw.
  destruct (scan content _) as [st''|st''|st'']; simpl in *;
    [|reflexivity..].
  apply selectorLoop_erase_spent. now apply (spent_visits _ _ _ Hs).
Qed.

End Erase.

(** X7. A later match with the same canonical form as an earlier one (the
    same value again, or another spelling of it) is dropped: if the earlier
    value is not "/", the loop behaves exactly as on the list without the
    later match, nested scans included. *)
Theorem repeated_candidate_is_dropped fuel b pre p mid p' post st :
  isRoot p = false ->
  cleanURL url_parse self p' = cleanURL url_parse self p ->
  selectorLoop url_parse self axios_get
    (scanPage url_parse self axios_get cheerio fuel) b
    (pre ++ p :: mid ++ p' :: post) st
  = selectorLoop url_parse self axios_get
      (scanPage url_parse self axios_get cheerio fuel) b
      (pre ++ p :: mid ++ post) st.
Proof.
  intros Hr Hc. apply selectorLoop_congr. intros st'.
  apply selectorLoop_erase_repeat; try assumption.
  apply scanPage_visits.
Qed.

(** X8. A matched element without the attribute, or with an empty one, is
    passed over like "/": the loop behaves exactly as on the list without
    it. *)
Theorem missing_attribute_is_skipped scan b pre post st :
  selectorLoop url_parse self axios_get scan b (pre ++ None :: post) st
  = selectorLoop url_parse self axios_get scan b (pre ++ post) st
  /\ selectorLoop url_parse self axios_get scan b
       (pre ++ Some ""%string :: post) st
     = selectorLoop url_parse self axios_get scan b (pre ++ post) st.
Proof.
  split; apply selectorLoop_congr; intros st';
    apply selectorLoop_spent; reflexivity.
Qed.

(** X9. While the counter is within the budget, as it always is in a run
    with [maxDepth >= 0], the check before the nested scan never holds one
    back: once the record of a successfully fetched candidate has been
    appended, its body is scanned, for the asset rules ([incrDepth = false])
    as for the link rule.  The one thing that keeps a fetched body from
    being scanned is the size computation before it: when that throws, the
    loop is rejected with the candidate visited and nothing recorded. *)
Theorem recorded_body_is_always_scanned scan b path rest st u r :
  currentDepth st <= maxDepth (CRAWLER_OPTIONS self) ->
  atMaxDepth self st = false ->
  isRoot path = false ->
  cleanURL url_parse self path = Some u ->
  admissible (Some u) st = true ->
  axios_get (List.length (requests st)) u = Reply r ->
  isSuccessResponse (Reply r) = true ->
  selectorLoop url_parse self axios_get scan b (path :: rest) st
  = match downloadSize r with
    | Some size =>
        do st' <- scan (data r) (visit u b st) ;;
        selectorLoop url_parse self axios_get scan b rest st'
    | None => Rejected (visit u b st)
    end
  /\ scannedResourceInfo (visit u b st)
     = scannedResourceInfo st
       ++ match downloadSize r with
          | Some size => [mkInfo u size]
          | None => []
          end.
Proof.
  intros Hd Hg Hr Hc Ha Hq Hs. split.
  - rewrite selectorLoop_admit; rewrite ?Hc; try assumption.
    simpl orEmpty. rewrite Hq. unfold afterVisit. rewrite Hs.
    destruct (downloadSize r) as [size|]; [|reflexivity].
    replace (mayDescend self (visit u b st)) with true; [reflexivity|].
    symmetry. unfold mayDescend. rewrite visit_depth.
    unfold atMaxDepth in Hg. apply Z.eqb_neq in Hg.
    apply orb_true_iff. right. apply Z.leb_le. destruct b; lia.
  - rewrite visit_records, Hq. unfold recordsOf. rewrite Hs. reflexivity.
Qed.

(** *** Sizes *)

Lemma digits_decimalValue l acc :
  forallb NodeUrl.is_digit l = true ->
  StringToNumber.digits 10 acc l
  = Some (fold_left (fun acc c => 10 * acc + Z.of_nat (NodeUrl.code c - 48))
            l acc).
Proof.
  revert acc. induction l as [|c t IH]; intros acc H; [reflexivity|].
  simpl in H. apply andb_prop in H as [Hc Ht].
  cbn [StringToNumber.digits fold_left]. unfold StringToNumber.digitOf.
  rewrite Hc.
  assert (Hlt : (Z.of_nat (NodeUrl.code c - 48) <? 10) = true).
  { apply Z.ltb_lt. unfold NodeUrl.is_digit, NodeUrl.between in Hc.
    apply andb_prop in Hc as [_ Hhi]. apply Nat.leb_le in Hhi. lia. }
  rewrite Hlt. now apply IH.
Qed.

Lemma digit_facts c :
  NodeUrl.is_digit c = true ->
  StringToNumber.isStrWhiteSpace c = false
  /\ NodeUrl.isCode NodeUrl.CHAR_HYPHEN_MINUS c = false
  /\ NodeUrl.isCode NodeUrl.CHAR_PLUS c = false
  /\ StringToNumber.radixOf c = None
  /\ Ascii.eqb c "I"%char = false.
Proof.
  destruct c as [[|] [|] [|] [|] [|] [|] [|] [|]];
  vm_compute; intros; first [discriminate | repeat split].
Qed.

Lemma forallb_rev_any (A : Type) (p : A -> bool) l :
  forallb p (rev l) = forallb p l.
Proof.
  induction l as [|c t IH]; simpl; [reflexivity|].
  rewrite forallb_app, IH. simpl. rewrite andb_true_r. apply andb_comm.
Qed.

Lemma trim_digits l :
  forallb NodeUrl.is_digit l = true -> StringToNumber.trim l = l.
Proof.
  intros H. unfold StringToNumber.trim.
  assert (Hd : forall k, forallb NodeUrl.is_digit k = true ->
                 NodeUrl.dropWhile StringToNumber.isStrWhiteSpace k = k).
  { intros [|c t] Hk; [reflexivity|]. simpl in *.
    apply andb_prop in Hk as [Hc _].
    now destruct (digit_facts c Hc) as [-> _]. }
  rewrite (Hd l H), Hd by now rewrite forallb_rev_any.
  apply rev_involutive.
Qed.

Lemma takeWhile_digits l :
  forallb NodeUrl.is_digit l = true ->
  NodeUrl.takeWhile NodeUrl.is_digit l = l
  /\ NodeUrl.dropWhile NodeUrl.is_digit l = [].
Proof.
  induction l as [|c t IH]; simpl; [now split|].
  intros H. apply andb_prop in H as [Hc Ht]. rewrite Hc.
  destruct (IH Ht) as [-> ->]. now split.
Qed.

Lemma decimalLiteral_digits l :
  l <> [] -> forallb NodeUrl.is_digit l = true ->
  StringToNumber.decimalLiteral l = numberOfZ (StringToNumber.decimalValue l).
Proof.
  intros Hne H. destruct l as [|c t]; [contradiction|].
  pose proof H as Hall. simpl in H. apply andb_prop in H as [Hc Ht].
  destruct (digit_facts c Hc) as (_ & Hm & Hp & _ & HI).
  unfold StringToNumber.decimalLiteral, StringToNumber.signed.
  rewrite Hm, Hp. unfold StringToNumber.unsignedDecimal.
  assert (Hinf : String.eqb (NodeUrl.str (c :: t)) "Infinity" = false).
  { simpl. now rewrite HI. }
  rewrite Hinf. destruct (takeWhile_digits _ Hall) as [-> ->].
  rewrite app_nil_r. cbv iota beta.
  rewrite digits_decimalValue by exact Hall.
  cbn [StringToNumber.exponentPart List.length Z.of_nat Z.sub Z.opp Z.add].
  fold (StringToNumber.decimalValue (c :: t)).
  unfold decimalNumber, numberOfZ.
  destruct (StringToNumber.decimalValue (c :: t)) as [|m|m]; [reflexivity| |].
  - cbn [Z.leb Z.compare cond_Zopp Z.pow Z.pow_pos Pos.iter].
    now rewrite Z.mul_1_r.
  - cbn [Z.leb Z.compare cond_Zopp Z.pow Z.pow_pos Pos.iter].
    now rewrite Z.mul_1_r.
Qed.

(** Unary plus on a run of decimal digits, the only text HTTP admits for a
    Content-Length: the number the digits denote, as a double. *)
Lemma toNumber_digits l :
  l <> [] -> forallb NodeUrl.is_digit l = true ->
  toNumber (Some (NodeUrl.str l)) = numberOfZ (StringToNumber.decimalValue l).
Proof.
  intros Hne H. unfold toNumber, StringToNumber.parse, NodeUrl.str.
  rewrite list_ascii_of_string_of_list_ascii, trim_digits by exact H.
  destruct l as [|z [|x ds]]; [contradiction | |].
  - now apply decimalLiteral_digits.
  - pose proof H as Hall. simpl in H. apply andb_prop in H as [_ H].
    apply andb_prop in H as [Hx _].
    destruct (digit_facts x Hx) as (_ & _ & _ & -> & _).
    destruct (NodeUrl.isCode 48 z); now apply decimalLiteral_digits.
Qed.

(** *** Integers as doubles

    The double nearest to a positive integer is positive: finite, or
    infinite from 2^1024 on.  A byte length is never read as zero or NaN
    unless it is zero. *)

Lemma digits2_pos_spec p :
  2 ^ (Zpos (digits2_pos p) - 1) <= Zpos p < 2 ^ Zpos (digits2_pos p).
Proof.
  induction p as [p IH|p IH|]; cbn [digits2_pos].
  - rewrite Pos2Z.inj_succ.
    replace (Z.succ (Zpos (digits2_pos p)) - 1)
      with (Z.succ (Zpos (digits2_pos p) - 1)) by lia.
    rewrite !Z.pow_succ_r by lia. lia.
  - rewrite Pos2Z.inj_succ.
    replace (Z.succ (Zpos (digits2_pos p)) - 1)
      with (Z.succ (Zpos (digits2_pos p) - 1)) by lia.
    rewrite !Z.pow_succ_r by lia. lia.
  - simpl. lia.
Qed.

Lemma shr_1_m mrs : 0 <= shr_m mrs -> shr_m (shr_1 mrs) = shr_m mrs / 2.
Proof.
  destruct mrs as [m r s]. simpl. intros Hm.
  destruct m as [|[p|p|]|p]; simpl; try reflexivity; try lia.
  - rewrite Pos2Z.inj_xI. apply Z.div_unique with 1; lia.
  - rewrite Pos2Z.inj_xO. apply Z.div_unique with 0; lia.
Qed.

Lemma iter_pos_shr_m n mrs :
  0 <= shr_m mrs ->
  shr_m (iter_pos shr_1 n mrs) = shr_m mrs / 2 ^ Zpos n.
Proof.
  revert mrs. induction n as [n IH|n IH|]; intros mrs Hm; cbn [iter_pos].
  - assert (H1 : 0 <= shr_m (shr_1 mrs))
      by (rewrite shr_1_m by exact Hm; apply Z.div_pos; lia).
    assert (H2 : 0 <= shr_m (iter_pos shr_1 n (shr_1 mrs)))
      by (rewrite IH by exact H1; apply Z.div_pos; lia).
    rewrite IH, IH, shr_1_m by assumption.
    assert (Hp : 0 < 2 ^ Zpos n) by (apply Z.pow_pos_nonneg; lia).
    rewrite !Z.div_div by lia. f_equal.
    change (Zpos n~1) with (2 * Zpos n + 1).
    replace (2 * Zpos n + 1) with (1 + Zpos n + Zpos n) by lia.
    rewrite !Z.pow_add_r by lia. change (2 ^ 1) with 2. lia.
  - assert (H2 : 0 <= shr_m (iter_pos shr_1 n mrs))
      by (rewrite IH by exact Hm; apply Z.div_pos; lia).
    rewrite IH, IH by assumption.
    assert (Hp : 0 < 2 ^ Zpos n) by (apply Z.pow_pos_nonneg; lia).
    rewrite !Z.div_div by lia. f_equal.
    change (Zpos n~0) with (2 * Zpos n).
    replace (2 * Zpos n) with (Zpos n + Zpos n) by lia.
    rewrite Z.pow_add_r by lia. reflexivity.
  - now apply shr_1_m.
Qed.

Lemma shr_record_of_loc_m m l : shr_m (shr_record_of_loc m l) = m.
Proof. destruct l as [|[ | | ]]; reflexivity. Qed.

(** Under [shr_fexp] a positive mantissa at an exponent not below the
    least one stays positive, and the exponent does not go down. *)
Lemma shr_fexp_pos p e l :
  3 - 1024 - 53 <= e ->
  let '(mrs, e') := shr_fexp 53 1024 (Zpos p) e l in
  0 < shr_m mrs /\ e <= e'.
Proof.
  intros He. unfold shr_fexp, shr, fexp, emin. cbn [Zdigits2].
  pose proof (digits2_pos_spec p) as [Hlo Hhi].
  set (d := Zpos (digits2_pos p)) in *.
  destruct (Z.max (d + e - 53) (3 - 1024 - 53) - e) as [|n|n] eqn:Hn.
  - rewrite shr_record_of_loc_m. lia.
  - rewrite iter_pos_shr_m by (rewrite shr_record_of_loc_m; lia).
    rewrite shr_record_of_loc_m. split; [|lia].
    assert (Hle : Zpos n <= d - 1) by lia.
    assert (Hpow : 2 ^ Zpos n <= 2 ^ (d - 1)) by (apply Z.pow_le_mono_r; lia).
    apply Z.div_str_pos. split; [apply Z.pow_pos_nonneg; lia | lia].
  - rewrite shr_record_of_loc_m. lia.
Qed.

Lemma round_nearest_even_pos m l : 0 < m -> 0 < round_nearest_even m l.
Proof.
  intros Hm. destruct l as [|[ | | ]]; simpl; try lia.
  destruct (Z.even m); lia.
Qed.

Lemma binary_round_aux_pos p e l :
  3 - 1024 - 53 <= e ->
  exists m' e',
    binary_round_aux 53 1024 false (Zpos p) e l = S754_finite false m' e'
    \/ binary_round_aux 53 1024 false (Zpos p) e l = S754_infinity false.
Proof.
  intros He. unfold binary_round_aux.
  pose proof (shr_fexp_pos p e l He) as H1.
  destruct (shr_fexp 53 1024 (Zpos p) e l) as [mrs' e'].
  destruct H1 as [Hm1 He1].
  pose proof (round_nearest_even_pos (shr_m mrs') (loc_of_shr_record mrs')
                Hm1) as Hr.
  destruct (round_nearest_even (shr_m mrs') (loc_of_shr_record mrs')) as [|q|q];
    try lia.
  pose proof (shr_fexp_pos q e' loc_Exact) as H2.
  destruct (shr_fexp 53 1024 (Zpos q) e' loc_Exact) as [mrs'' e''].
  destruct H2 as [Hm2 _]; [lia|].
  destruct (shr_m mrs'') as [|m|m]; try lia.
  exists m, e''. destruct (e'' <=? 1024 - 53); [now left | now right].
Qed.

Lemma numberOfZ_pos p :
  exists m e, numberOfZ (Zpos p) = S754_finite false m e
              \/ numberOfZ (Zpos p) = S754_infinity false.
Proof.
  unfold numberOfZ, binary_normalize, binary_round.
  destruct (shl_align p 0 _) as [mz ez] eqn:Hs.
  apply binary_round_aux_pos.
  unfold shl_align, fexp, emin in Hs.
  destruct (Z.max (Zpos (digits2_pos p) + 0 - 53) (3 - 1024 - 53) - 0) eqn:Hd;
    injection Hs as <- <-; lia.
Qed.

Lemma numberOfZ_truthy n : 0 < n -> falsy (numberOfZ n) = false.
Proof.
  destruct n as [|p|p]; try lia. intros _.
  destruct (numberOfZ_pos p) as (m & e & [-> | ->]); reflexivity.
Qed.

Lemma orZero_id n : orZero n = n.
Proof. unfold orZero. now destruct (Z.eqb_spec n 0) as [->|]. Qed.

Lemma downloadSize_cases r size :
  downloadSize r = Some size ->
  size <> NaN
  /\ (falsy size = true
      <-> falsy (toNumber (content_length r)) = true
          /\ data r = Text ""%string)
  /\ (falsy size = true -> size = S754_zero false).
Proof.
  unfold downloadSize.
  destruct (falsy (toNumber (content_length r))) eqn:Hh.
  - destruct (data r) as [text|source]; [|discriminate].
    cbn [byteLength option_map]. rewrite orZero_id. intros [= <-].
    assert (Hcases : text = ""%string \/ 0 < Z.of_nat (String.length text))
      by (destruct text; [now left | right; simpl String.length; lia]).
    destruct Hcases as [-> | Hlen].
    + split; [discriminate|]. split; [|reflexivity].
      split; [intros _; now split | reflexivity].
    + pose proof (numberOfZ_truthy _ Hlen) as Ht.
      split; [intros E; rewrite E in Ht; discriminate|].
      split; [|rewrite Ht; discriminate].
      split; [rewrite Ht; discriminate|].
      intros [_ [= E]]. rewrite E in Hlen. simpl in Hlen. lia.
  - intros [= <-].
    split; [intros E; rewrite E in Hh; discriminate|].
    split; [|rewrite Hh; discriminate].
    split; [rewrite Hh; discriminate | intros [E _]; discriminate].
Qed.

(** X10. The size of a record.  For a body that is text the computation
    never throws: the size is the number unary plus makes of the
    Content-Length when that number is truthy, the number of bytes of the
    body in UTF-8 otherwise.  For a body that is not text it is the same
    number when truthy, and the computation throws otherwise.  A
    Content-Length of decimal digits gives the number the digits denote, so
    that a Content-Length of zero stands for the length of the body.  No
    size is NaN or the negative zero: a size is zero only for an empty text
    body whose Content-Length gives no truthy number; and so it is of every
    record of a run. *)
Theorem recorded_sizes fuel r :
  (forall text, data r = Text text ->
     downloadSize r
     = Some (if falsy (toNumber (content_length r))
             then numberOfZ (Z.of_nat (String.length text))
             else toNumber (content_length r)))
  /\ (forall source, data r = Parsed source ->
        downloadSize r
        = if falsy (toNumber (content_length r)) then None
          else Some (toNumber (content_length r)))
  /\ (forall l, l <> [] -> forallb NodeUrl.is_digit l = true ->
        content_length r = Some (NodeUrl.str l) ->
        toNumber (content_length r)
        = numberOfZ (StringToNumber.decimalValue l))
  /\ (forall size, downloadSize r = Some size ->
        size <> NaN
        /\ (falsy size = true
            <-> falsy (toNumber (content_length r)) = true
                /\ data r = Text ""%string)
        /\ (falsy size = true -> size = S754_zero false))
  /\ Forall (fun info => size info <> NaN /\ size info <> S754_zero true)
       (scannedResourceInfo
          (finalState (run url_parse self axios_get cheerio fuel))).
Proof.
  split; [|split; [|split; [|split]]].
  - intros text Hd. unfold downloadSize. rewrite Hd. simpl.
    rewrite orZero_id. now destruct (falsy _).
  - intros source Hd. unfold downloadSize. rewrite Hd. reflexivity.
  - intros l Hne Hl ->. now apply toNumber_digits.
  - apply downloadSize_cases.
  - assert (H : forall st st', visits st st' ->
                  Forall (fun info => size info <> NaN
                                      /\ size info <> S754_zero true)
                    (scannedResourceInfo st) ->
                  Forall (fun info => size info <> NaN
                                      /\ size info <> S754_zero true)
                    (scannedResourceInfo st')).
    { intros st st' Hv H0. induction Hv as [|st' u b _ IH Hu Hg]; [exact H0|].
      rewrite visit_records. apply Forall_app. split; [exact IH|].
      unfold recordsOf. destruct (axios_get _ _) as [r'|]; [|constructor].
      destruct (isSuccessResponse _); [|constructor].
      destruct (downloadSize r') as [sz|] eqn:Hz; constructor; [|constructor].
      destruct (downloadSize_cases r' sz Hz) as (Hnan & _ & Hzero).
      split; [exact Hnan|]. simpl. intros E.
      assert (K : sz = S754_zero false) by (apply Hzero; now rewrite E).
      rewrite E in K. discriminate. }
    apply (H seedState); [apply run_visits | constructor].
Qed.

(** *** The bound on nested scans does not matter once a scan is over *)

Section FinishedMono.

Variables scan1 scan2 : Data -> CrawlerState -> Async.
Hypothesis scan_mono :
  forall content st, finished (scan1 content st) = true ->
                     scan2 content st = scan1 content st.

Lemma selectorLoop_finished_mono b paths st :
  finished (loop scan1 b paths st) = true ->
  loop scan2 b paths st = loop scan1 b paths st.
Proof.
  revert st. induction paths as [|path rest IH]; intros st; [trivial|].
  destruct (atMaxDepth self st) eqn:Hg.
  { now rewrite !selectorLoop_gate by exact Hg. }
  destruct (isRoot path) eqn:Hr.
  { rewrite !selectorLoop_root by exact Hr. apply IH. }
  destruct (admissible (cleanURL url_parse self path) st) eqn:Ha.
  2:{ rewrite !selectorLoop_skip by assumption. apply IH. }
  rewrite !selectorLoop_admit by assumption.
  destruct (afterVisit _ _ _) as [content| |]; [|apply IH | reflexivity].
  intros Hf.
  destruct (scan1 content _) as [st1|st1|st1] eqn:E1; simpl in Hf;
    try discriminate.
  - rewrite scan_mono, E1 by (now rewrite E1). simpl. now apply IH.
  - rewrite scan_mono, E1 by (now rewrite E1). reflexivity.
Qed.

Lemma readResourceContent_finished_mono content resources b st :
  finished (read scan1 content resources b st) = true ->
  read scan2 content resources b st = read scan1 content resources b st.
Proof.
  revert st. induction resources as [|r rest IH]; intros st; [trivial|].
  simpl. intros Hf.
  destruct (selectorLoop _ _ _ scan1 _ _ _) as [st1|st1|st1] eqn:E1;
    simpl in Hf; try discriminate.
  - rewrite selectorLoop_finished_mono, E1 by (now rewrite E1).
    simpl. now apply IH.
  - rewrite selectorLoop_finished_mono, E1 by (now rewrite E1). reflexivity.
Qed.

End FinishedMono.

Lemma scanPage_finished_S fuel content st :
  finished (scanPageN fuel content st) = true ->
  scanPageN (S fuel) content st = scanPageN fuel content st.
Proof.
  revert content st. induction fuel as [|fuel IH]; intros content st;
    [discriminate|].
  rewrite (scanPage_S _ _ _ _ (S fuel)), (scanPage_S _ _ _ _ fuel).
  unfold scanResourceAsset, scanResourceLink.
  destruct (includeAssets (CRAWLER_OPTIONS self)).
  - intros Hf.
    destruct (readResourceContent _ _ _ _ (scanPageN fuel) _ ASSET_RESOURCES _ _)
      as [st1|st1|st1] eqn:E1; simpl in Hf; try discriminate.
    + rewrite (readResourceContent_finished_mono _ _ IH), E1
        by (now rewrite E1).
      unfold await. now apply readResourceContent_finished_mono.
    + rewrite (readResourceContent_finished_mono _ _ IH), E1
        by (now rewrite E1).
      reflexivity.
  - unfold await. now apply readResourceContent_finished_mono.
Qed.

Lemma scanPage_finished_le fuel fuel' content st :
  (fuel <= fuel')%nat ->
  finished (scanPageN fuel content st) = true ->
  scanPageN fuel' content st = scanPageN fuel content st.
Proof.
  induction 1 as [|fuel' _ IH]; [trivial|].
  intros H. rewrite scanPage_finished_S; rewrite IH; trivial.
Qed.

(** *** Where a rejection comes from *)

Lemma afterVisit_throw u b st :
  afterVisit self (axios_get (List.length (requests st)) u) (visit u b st)
  = Throw ->
  thrown axios_get (visit u b st).
Proof.
  unfold afterVisit.
  destruct (axios_get (List.length (requests st)) u) as [r|] eqn:Hq;
    [|discriminate].
  destruct (isSuccessResponse (Reply r)) eqn:Hs; [|discriminate].
  destruct (downloadSize r) as [size|] eqn:Hz;
    [destruct (mayDescend self _); discriminate|].
  intros _. exists (requests st), u, (currentDepth (visit u b st)), r.
  repeat split; try assumption. apply visit_requests.
Qed.

Section LoopsRejected.

Variable scan : Data -> CrawlerState -> Async.
Hypothesis scan_rejected :
  forall content st st', scan content st = Rejected st' -> thrown axios_get st'.

Lemma selectorLoop_rejected b paths st st' :
  loop scan b paths st = Rejected st' -> thrown axios_get st'.
Proof.
  revert st. induction paths as [|path rest IH]; intros st; [discriminate|].
  destruct (atMaxDepth self st) eqn:Hg.
  { rewrite selectorLoop_gate by exact Hg. discriminate. }
  destruct (isRoot path) eqn:Hr.
  { rewrite selectorLoop_root by exact Hr. apply IH. }
  destruct (admissible (cleanURL url_parse self path) st) eqn:Ha.
  2:{ rewrite selectorLoop_skip by assumption. apply IH. }
  rewrite selectorLoop_admit by assumption.
  destruct (afterVisit _ _ _) as [content| |] eqn:Hn; [|apply IH|].
  - destruct (scan content _) as [st1|st1|st1] eqn:E1; simpl.
    + apply IH.
    + intros [= <-]. eapply scan_rejected. exact E1.
    + discriminate.
  - intros [= <-]. apply afterVisit_throw. exact Hn.
Qed.

Lemma readResourceContent_rejected content resources b st st' :
  read scan content resources b st = Rejected st' -> thrown axios_get st'.
Proof.
  revert st. induction resources as [|r rest IH]; intros st; [discriminate|].
  simpl.
  destruct (selectorLoop _ _ _ scan _ _ _) as [st1|st1|st1] eqn:E1; simpl.
  - apply IH.
  - intros [= <-]. eapply selectorLoop_rejected. exact E1.
  - discriminate.
Qed.

End LoopsRejected.

Lemma scanPage_rejected fuel content st st' :
  scanPageN fuel content st = Rejected st' -> thrown axios_get st'.
Proof.
  revert content st st'. induction fuel as [|fuel IH]; intros content st st';
    [discriminate|].
  rewrite scanPage_S. unfold scanResourceAsset, scanResourceLink.
  destruct (includeAssets (CRAWLER_OPTIONS self)).
  - destruct (readResourceContent _ _ _ _ (scanPageN fuel) _ ASSET_RESOURCES _ _)
      as [st1|st1|st1] eqn:E1; unfold await.
    + apply readResourceContent_rejected. exact IH.
    + intros [= <-]. eapply readResourceContent_rejected; [exact IH | exact E1].
    + discriminate.
  - unfold await. apply readResourceContent_rejected. exact IH.
Qed.


(** *** A negative [maxDepth] *)

Lemma negative_budget_link_loop paths st :
  maxDepth (CRAWLER_OPTIONS self) < 0 ->
  0 <= currentDepth st ->
  exists a,
    (forall scan, loop scan true paths st = a)
    /\ match a with
       | Settled st' =>
           0 <= currentDepth st' /\ visits st st'
           /\ Forall (fun path => spent url_parse self path st' = true) paths
       | Rejected st' => thrown axios_get st'
       | Unfinished _ => False
       end.
Proof.
  intros Hneg. revert st. induction paths as [|path rest IH]; intros st Hd.
  - exists (Settled st). split; [reflexivity|].
    repeat split; [lia | apply visits_refl | constructor].
  - assert (Hg : atMaxDepth self st = false)
      by (unfold atMaxDepth; apply Z.eqb_neq; lia).
    destruct (isRoot path) eqn:Hr.
    { destruct (IH st Hd) as [a [Hl Ha]]. exists a. split.
      - intros scan. rewrite selectorLoop_root by exact Hr. apply Hl.
      - destruct a as [st'|st'|st']; try exact Ha.
        destruct Ha as (Hd' & Hv & Hf). repeat split; try assumption.
        constructor; [|exact Hf]. unfold spent. now rewrite Hr. }
    destruct (admissible (cleanURL url_parse self path) st) eqn:Ha.
    2:{ destruct (IH st Hd) as [a [Hl Hw]]. exists a. split.
        - intros scan. rewrite selectorLoop_skip by assumption. apply Hl.
        - destruct a as [st'|st'|st']; try exact Hw.
          destruct Hw as (Hd' & Hv & Hf). repeat split; try assumption.
          constructor; [|exact Hf]. apply (spent_visits _ st); [|exact Hv].
          unfold spent. rewrite Ha. apply orb_true_r. }
    set (u := orEmpty (cleanURL url_parse self path)).
    pose proof (visits_one self axios_get st u true
                  (admissible_fresh _ _ _ _ Ha) Hg) as Hv1.
    assert (Hd1 : currentDepth (visit u true st) = currentDepth st + 1)
      by now rewrite visit_depth.
    assert (Hm : mayDescend self (visit u true st) = false).
    { unfold mayDescend. rewrite Hd1. apply orb_false_iff.
      split; [apply Z.eqb_neq | apply Z.leb_gt]; lia. }
    destruct (afterVisit self (axios_get (List.length (requests st)) u)
                (visit u true st)) as [content| |] eqn:Hn.
    + exfalso. unfold afterVisit in Hn. rewrite Hm in Hn.
      destruct (axios_get _ _) as [r|]; [|discriminate].
      destruct (isSuccessResponse _); [|discriminate].
      destruct (downloadSize r); discriminate.
    + destruct (IH (visit u true st)) as [a [Hl Hw]]; [lia|].
      exists a. split.
      * intros scan. rewrite selectorLoop_admit by assumption. fold u.
        rewrite Hn. apply Hl.
      * destruct a as [st'|st'|st']; try exact Hw.
        destruct Hw as (Hd' & Hv & Hf). repeat split; try assumption.
        -- eapply visits_trans; eassumption.
        -- constructor; [|exact Hf].
           apply (spent_visits _ (visit u true st)); [|exact Hv].
           unfold spent, admissible. rewrite visit_hosts. fold u.
           replace (includes (scannedHosts st ++ [u]) u) with true.
           ++ rewrite andb_false_r. apply orb_true_r.
           ++ symmetry. apply includes_In, in_or_app. right. now left.
    + exists (Rejected (visit u true st)). split.
      * intros scan. rewrite selectorLoop_admit by assumption. fold u.
        now rewrite Hn.
      * now apply afterVisit_throw.
Qed.


End MoreTraversal.

(* ===================================================================== *)
(** ** Seeds and candidates, through the parser *)
(* ===================================================================== *)

Section MorePlainUrls.

Import NodeUrl.
Local Open Scope list_scope.
Local Open Scope char_scope.

Lemma plainHost_more_facts c :
  plainHostChar c = true ->
  plainPathChar c = true /\ is_proto_char c = true
  /\ isCode CHAR_FORWARD_SLASH c = false.
Proof.
  destruct c as [[|] [|] [|] [|] [|] [|] [|] [|]];
  vm_compute; intros; first [discriminate | repeat split].
Qed.

Lemma digit_is_plainHost c : is_digit c = true -> plainHostChar c = true.
Proof.
  unfold plainHostChar. intros ->. now rewrite orb_true_r.
Qed.

Lemma plainHost_is_plainPath h :
  forallb plainHostChar h = true -> forallb plainPathChar h = true.
Proof.
  apply forallb_impl. intros c Hc. now destruct (plainHost_more_facts c Hc).
Qed.

Lemma no_at_dropWhile t :
  forallb (fun c => negb (isCode CHAR_AT c)) t = true ->
  match dropWhile not_at_slash t with
  | a :: _ => isCode CHAR_AT a = false
  | [] => True
  end.
Proof.
  intros H. apply (forallb_dropWhile _ not_at_slash) in H.
  destruct (dropWhile not_at_slash t) as [|a l]; [exact I|].
  simpl in H. apply andb_prop in H as [Ha _]. now apply negb_true_iff in Ha.
Qed.

Lemma hostPattern_no_at l :
  forallb (fun c => negb (isCode CHAR_AT c)) l = true -> hostPattern l = false.
Proof.
  intros H. destruct l as [|c1 [|c2 t]]; try reflexivity.
  simpl in H. apply andb_prop in H as [_ H]. apply andb_prop in H as [_ H].
  unfold hostPattern. pose proof (no_at_dropWhile t H) as Hd.
  destruct (takeWhile not_at_slash t); [apply andb_false_r|].
  destruct (dropWhile not_at_slash t) as [|x [|y l']];
    try apply andb_false_r.
  rewrite Hd. simpl. apply andb_false_r.
Qed.

Lemma plainPath_no_at p :
  forallb plainPathChar p = true ->
  forallb (fun c => negb (isCode CHAR_AT c)) p = true.
Proof.
  apply forallb_impl. intros c Hc.
  destruct (plainPath_facts c Hc) as (_ & _ & _ & _ & _ & H6 & _).
  now rewrite H6.
Qed.

(** A plain host with no protocol in front of it is read as a path. *)
Lemma parse_bare_host h p :
  h <> [] -> forallb plainHostChar h = true ->
  forallb plainPathChar p = true ->
  p = [] \/ (exists q, p = slash :: q) ->
  parse (str (h ++ p))
  = mkUrl None false None None (Some (str (h ++ p))) None None.
Proof.
  intros Hne Hh Hp Hshape.
  assert (Hall : forallb plainPathChar (h ++ p) = true)
    by (rewrite forallb_app, (plainHost_is_plainPath h Hh), Hp; reflexivity).
  destruct (quiet_plainPath _ Hall) as (Hp1 & Hp2 & Hp3 & _ & Hp5 & Hp6).
  unfold parse, str. rewrite list_ascii_of_string_of_list_ascii.
  rewrite trim_quiet by exact Hp1.
  rewrite convertBackslashes_quiet by exact Hp2.
  rewrite hasHash_quiet by exact Hp3.
  assert (Hsimple : simplePath (h ++ p) = None).
  { destruct h as [|c h']; [contradiction|]. simpl in Hh.
    apply andb_prop in Hh as [Hc _].
    destruct (plainHost_more_facts c Hc) as (_ & _ & Hs).
    unfold simplePath. rewrite <- app_comm_cons. now rewrite Hs. }
  rewrite Hsimple.
  assert (Hproto : protocolPattern (h ++ p) = None).
  { unfold protocolPattern.
    assert (Hpc : forallb is_proto_char h = true).
    { eapply forallb_impl; [|exact Hh]. intros c Hc.
      now destruct (plainHost_more_facts c Hc) as (_ & H2 & _). }
    destruct Hshape as [-> | [q ->]].
    - rewrite app_nil_r, takeWhile_all, dropWhile_all by exact Hpc.
      now destruct h.
    - rewrite takeWhile_app_stop, dropWhile_app_stop by (trivial || exact Hpc).
      now destruct h. }
  rewrite Hproto. cbv beta iota zeta.
  rewrite hostPattern_no_at by now apply plainPath_no_at.
  cbn [andb orb negb option_map].
  rewrite autoEscapeStr_plain by exact Hall.
  rewrite (takeWhile_all _ _ Hp3), (dropWhile_all _ _ Hp3).
  rewrite (takeWhile_all _ _ Hp5), (dropWhile_all _ _ Hp5).
  destruct h as [|c h']; [contradiction | reflexivity].
Qed.

(** X13. The constructor needs a protocol: a seed that is a plain host
    name, with or without a path, or a path alone, has no host name for the
    parser and is refused; a plain http URL is accepted, and its host name
    and protocol, with no port, are what relative candidates inherit. *)
Theorem constructor_needs_a_protocol h p options :
  h <> [] -> forallb plainHostChar h = true -> (List.length h <= 255)%nat ->
  forallb plainPathChar p = true ->
  p = [] \/ (exists q, p = slash :: q) ->
  newCrawler parse (str (h ++ p)) options = None
  /\ newCrawler parse (str p) options = None
  /\ newCrawler parse (str (httpPrefix ++ h ++ p)) options
     = Some (mkCrawler (str (httpPrefix ++ h ++ p)) (str h)
               (Some "http:"%string) None
               (match options with Some o => o | None => DEFAULT_OPTIONS end)).
Proof.
  intros Hne Hh Hlen Hp Hshape. unfold newCrawler.
  rewrite parse_bare_host, parse_plain_http by assumption.
  repeat split.
  destruct Hshape as [-> | [q ->]]; [reflexivity|].
  now rewrite parse_plain_path.
Qed.

Lemma printable_is_plain p :
  forallb printablePathChar p = true -> forallb plainPathChar p = true.
Proof.
  apply forallb_impl. intros c Hc. unfold printablePathChar in Hc.
  now apply andb_prop in Hc as [_ Hc].
Qed.

Lemma autoEscapeStr_app a b :
  autoEscapeStr (a ++ b) = autoEscapeStr a ++ autoEscapeStr b.
Proof. unfold autoEscapeStr. apply flat_map_app. Qed.

(** A root-relative path followed by a query. *)
Lemma parse_plain_path_query q s :
  forallb plainPathChar q = true -> forallb plainPathChar s = true ->
  parse (str (slash :: q ++ questionMark :: s))
  = mkUrl None false None None (Some (str (slash :: q)))
      (Some (str (questionMark :: s))) None.
Proof.
  intros Hq Hs.
  assert (Hp : forallb plainPathChar (slash :: q) = true) by exact Hq.
  destruct (quiet_plainPath _ Hp) as (Hp1 & Hp2 & Hp3 & _ & Hp5 & Hp6).
  destruct (quiet_plainPath _ Hs) as (Hs1 & Hs2 & Hs3 & _ & Hs5 & Hs6).
  unfold parse, str. rewrite list_ascii_of_string_of_list_ascii.
  rewrite app_comm_cons.
  rewrite trim_quiet
    by (rewrite forallb_app, Hp1; simpl; exact Hs1).
  rewrite convertBackslashes_quiet
    by (rewrite forallb_app, Hp2; simpl; exact Hs2).
  rewrite hasHash_quiet
    by (rewrite forallb_app, Hp3; simpl; exact Hs3).
  assert (Htake : takeWhile not_question ((slash :: q) ++ questionMark :: s)
                  = slash :: q)
    by (apply takeWhile_app_stop; [exact Hp5 | reflexivity]).
  assert (Hdrop : dropWhile not_question ((slash :: q) ++ questionMark :: s)
                  = questionMark :: s)
    by (apply dropWhile_app_stop; [exact Hp5 | reflexivity]).
  destruct (simplePath ((slash :: q) ++ questionMark :: s)) as [[p' s']|] eqn:E.
  - unfold simplePath in E. rewrite <- app_comm_cons in E.
    destruct (_ && _ && _) in E; [|discriminate].
    rewrite app_comm_cons, Htake, Hdrop in E. injection E as <- <-.
    reflexivity.
  - change (protocolPattern ((slash :: q) ++ questionMark :: s))
      with (@None (chars * chars)).
    cbv beta iota zeta.
    rewrite hostPattern_no_at
      by (rewrite forallb_app, (plainPath_no_at _ Hp); simpl;
          now apply plainPath_no_at).
    cbn [andb orb negb option_map].
    rewrite autoEscapeStr_app, (autoEscapeStr_plain _ Hp).
    change (autoEscapeStr (questionMark :: s))
      with (questionMark :: autoEscapeStr s).
    rewrite (autoEscapeStr_plain _ Hs).
    assert (Hnh : forallb (fun c => negb (isCode CHAR_HASH c))
                    ((slash :: q) ++ questionMark :: s) = true)
      by (rewrite forallb_app, Hp3; simpl; exact Hs3).
    rewrite (takeWhile_all _ _ Hnh), (dropWhile_all _ _ Hnh).
    rewrite Htake, Hdrop. reflexivity.
Qed.

(** A root-relative path followed by a fragment. *)
Lemma parse_plain_path_fragment q f :
  forallb plainPathChar q = true -> forallb plainPathChar f = true ->
  parse (str (slash :: q ++ hashMark :: f))
  = mkUrl None false None None (Some (str (slash :: q))) None
      (Some (str (hashMark :: f))).
Proof.
  intros Hq Hf.
  assert (Hp : forallb plainPathChar (slash :: q) = true) by exact Hq.
  destruct (quiet_plainPath _ Hp) as (Hp1 & Hp2 & Hp3 & _ & Hp5 & Hp6).
  destruct (quiet_plainPath _ Hf) as (Hf1 & Hf2 & Hf3 & _ & Hf5 & Hf6).
  unfold parse, str. rewrite list_ascii_of_string_of_list_ascii.
  rewrite app_comm_cons.
  rewrite trim_quiet
    by (rewrite forallb_app, Hp1; simpl; exact Hf1).
  rewrite convertBackslashes_quiet
    by (rewrite forallb_app, Hp2; simpl; exact Hf2).
  assert (Hhash : hasHash ((slash :: q) ++ hashMark :: f) = true).
  { unfold hasHash. rewrite existsb_app. simpl. apply orb_true_r. }
  rewrite Hhash.
  change (protocolPattern ((slash :: q) ++ hashMark :: f))
    with (@None (chars * chars)).
  cbv beta iota zeta.
  rewrite hostPattern_no_at
    by (rewrite forallb_app, (plainPath_no_at _ Hp); simpl;
        now apply plainPath_no_at).
  cbn [andb orb negb option_map].
  rewrite autoEscapeStr_app, (autoEscapeStr_plain _ Hp).
  change (autoEscapeStr (hashMark :: f)) with (hashMark :: autoEscapeStr f).
  rewrite (autoEscapeStr_plain _ Hf).
  rewrite takeWhile_app_stop, dropWhile_app_stop
    by (trivial || exact Hp3).
  rewrite (takeWhile_all _ _ Hp5), (dropWhile_all _ _ Hp5).
  reflexivity.
Qed.


Lemma scanHost_colon rest i a n :
  scanHost (colon :: rest) i a n = scanHost rest (S i) a n.
Proof. reflexivity. Qed.

Lemma parseHost_port h d :
  h <> [] -> d <> [] -> forallb is_digit d = true ->
  parseHost (h ++ colon :: d) = (Some h, Some d).
Proof.
  intros Hh Hd Hdig. unfold parseHost.
  assert (Hrev : rev (h ++ colon :: d) = rev d ++ colon :: rev h).
  { rewrite rev_app_distr. simpl. now rewrite <- app_assoc. }
  rewrite Hrev.
  rewrite takeWhile_app_stop, dropWhile_app_stop
    by (trivial || now rewrite forallb_rev).
  rewrite !rev_involutive.
  change (isCode CHAR_COLON colon) with true. cbv iota.
  destruct h; [contradiction|]. destruct d; [contradiction|]. reflexivity.
Qed.

(** The host section on a plain host with a port. *)
Lemma hostSection_port h d p :
  h <> [] -> forallb plainHostChar h = true -> (List.length h <= 255)%nat ->
  d <> [] -> forallb is_digit d = true ->
  p = [] \/ (exists q, p = slash :: q) ->
  hostSection (h ++ colon :: d ++ p) = (str h, Some (str d), p).
Proof.
  intros Hne Hh Hlen Hdne Hd Hp. unfold hostSection.
  assert (Hdh : forallb plainHostChar d = true)
    by (eapply forallb_impl; [apply digit_is_plainHost | exact Hd]).
  rewrite scanHost_plain by exact Hh. rewrite scanHost_colon.
  rewrite scanHost_plain by exact Hdh.
  match goal with |- context [scanHost p ?k None None] => set (n := k) end.
  assert (Hn : n = List.length (h ++ colon :: d))
    by (unfold n; rewrite length_app; simpl; lia).
  assert (Hscan : scanHost p n None None
                  = (None, match p with [] => None | _ => Some n end)).
  { destruct Hp as [-> | [q ->]]; reflexivity. }
  rewrite Hscan.
  replace (h ++ colon :: d ++ p) with ((h ++ colon :: d) ++ p)
    by (now rewrite <- app_assoc).
  assert (Hsplit : (match p with
                    | [] => (skipn 0 ((h ++ colon :: d) ++ p), [])
                    | _ => (slice 0 n ((h ++ colon :: d) ++ p),
                            skipn n ((h ++ colon :: d) ++ p))
                    end) = (h ++ colon :: d, p)).
  { destruct Hp as [-> | [q ->]].
    - simpl. now rewrite app_nil_r.
    - rewrite Hn. now rewrite slice_app_left, skipn_app_left. }
  assert (Hipv6 : match h with
                  | c :: _ => isCode CHAR_LEFT_SQUARE_BRACKET c
                              && isCode CHAR_RIGHT_SQUARE_BRACKET (last h c)
                  | [] => false end = false).
  { destruct h as [|c t]; [reflexivity|]. simpl in Hh.
    apply andb_prop in Hh as [Hc _].
    destruct (plainHost_facts c Hc) as (_ & _ & _ & _ & _ & _ & _ & H8 & _).
    now rewrite H8. }
  apply Nat.ltb_ge in Hlen.
  destruct p as [|c q].
  - injection Hsplit as Hs. simpl skipn in *. rewrite app_nil_r in *.
    rewrite parseHost_port by assumption.
    rewrite Hipv6, getHostname_plain by exact Hh.
    unfold hostnameMaxLen. rewrite Hlen. now rewrite toLowerCase_plain.
  - rewrite Hn, slice_app_left, skipn_app_left.
    rewrite parseHost_port by assumption.
    rewrite Hipv6, getHostname_plain by exact Hh.
    unfold hostnameMaxLen. rewrite Hlen. now rewrite toLowerCase_plain.
Qed.

Lemma parse_plain_http_port h d p :
  h <> [] -> forallb plainHostChar h = true -> (List.length h <= 255)%nat ->
  d <> [] -> forallb is_digit d = true ->
  forallb plainPathChar p = true ->
  p = [] \/ (exists q, p = slash :: q) ->
  parse (str (httpPrefix ++ h ++ colon :: d ++ p))
  = mkUrl (Some "http:"%string) true (Some (str h)) (Some (str d))
      (Some (match p with [] => "/"%string | _ => str p end)) None None.
Proof.
  intros Hne Hh Hlen Hdne Hd Hp Hshape.
  assert (Hdh : forallb plainHostChar d = true)
    by (eapply forallb_impl; [apply digit_is_plainHost | exact Hd]).
  destruct (quiet_plainHost h Hh) as (Hh1 & Hh2 & Hh3).
  destruct (quiet_plainHost d Hdh) as (Hd1 & Hd2 & Hd3).
  destruct (quiet_plainPath p Hp) as (Hp1 & Hp2 & Hp3 & _ & Hp5 & _).
  unfold parse, str. rewrite list_ascii_of_string_of_list_ascii.
  rewrite trim_quiet
    by (rewrite !forallb_app, Hh1; simpl; rewrite forallb_app, Hd1, Hp1;
        reflexivity).
  rewrite convertBackslashes_quiet
    by (rewrite !forallb_app, Hh2; simpl; rewrite forallb_app, Hd2, Hp2;
        reflexivity).
  rewrite hasHash_quiet
    by (rewrite !forallb_app, Hh3; simpl; rewrite forallb_app, Hd3, Hp3;
        reflexivity).
  change (simplePath (httpPrefix ++ h ++ colon :: d ++ p))
    with (@None (chars * chars)).
  change (protocolPattern (httpPrefix ++ h ++ colon :: d ++ p))
    with (Some (["h"; "t"; "t"; "p"; ":"], "/" :: "/" :: h ++ colon :: d ++ p)).
  cbv beta iota zeta.
  change (option_map toLowerCase (Some ["h"; "t"; "t"; "p"; ":"]))
    with (Some ["h"; "t"; "t"; "p"; ":"]).
  cbv beta iota zeta.
  change (hostlessProtocol ["h"; "t"; "t"; "p"; ":"]) with false.
  change (slashedProtocol ["h"; "t"; "t"; "p"; ":"]) with true.
  change (unsafeProtocol ["h"; "t"; "t"; "p"; ":"]) with false.
  change (isCode CHAR_FORWARD_SLASH "/") with true.
  cbn [andb orb negb skipn].
  rewrite (hostSection_port h d p Hne Hh Hlen Hdne Hd Hshape).
  cbv beta iota zeta.
  rewrite autoEscapeStr_plain by exact Hp.
  rewrite (takeWhile_all _ p Hp3), (dropWhile_all _ p Hp3).
  rewrite (takeWhile_all _ p Hp5), (dropWhile_all _ p Hp5).
  destruct h as [|c t]; [contradiction|].
  destruct d as [|c0 d0]; [contradiction|].
  destruct p as [|c' q]; reflexivity.
Qed.




End MorePlainUrls.

(* ===================================================================== *)
(** ** The further properties, on the site *)
(* ===================================================================== *)

Section MoreSiteFacts.

Local Open Scope Z_scope.
Local Open Scope list_scope.

Local Abbreviation siteCrawler := (Site.crawler Site.seed).
Local Abbreviation chars := list_ascii_of_string.

(** X1: the default crawl follows links only. *)
Lemma link_only_run_spends_one_depth_per_host_witness :
  let c := siteCrawler DEFAULT_OPTIONS in
  let st := finalState (Site.crawl Site.seed DEFAULT_OPTIONS 3) in
  includeAssets (CRAWLER_OPTIONS c) = false
  /\ currentDepth st = Z.of_nat (List.length (scannedHosts st))
  /\ List.length (requests st) = S (List.length (scannedHosts st)).
Proof.
  intros c st. split; [reflexivity|].
  destruct (link_only_run_spends_one_depth_per_host NodeUrl.parse c
              Site.axios_get Site.cheerio 3 eq_refl) as [H1 [H2 _]].
  split; [exact H1 | exact H2].
Defined.

(** X2: "/about", the second host of the default crawl, found on the seed
    page. *)
Lemma visited_hosts_are_found_on_fetched_pages_witness :
  let c := siteCrawler DEFAULT_OPTIONS in
  let st := finalState (Site.crawl Site.seed DEFAULT_OPTIONS 3) in
  let u := "http://a.test/about"%string in
  nth_error (scannedHosts st) 1 = Some u
  /\ truthy (Some u) = true
  /\ exists depth, nth_error (requests st) 2 = Some (mkRequest u depth).
Proof.
  intros c st u. split; [reflexivity|].
  destruct (visited_hosts_are_found_on_fetched_pages NodeUrl.parse c
              Site.axios_get Site.cheerio 3 1 u eq_refl) as [H1 [H2 _]].
  split; [exact H1 | exact H2].
Defined.

(** X6: with [maxDepth = 0] the budget is spent from the start. *)
Lemma exhausted_budget_ends_the_crawl_witness :
  let c := siteCrawler (mkOptions 0 true) in
  atMaxDepth c (seedState c) = true
  /\ scanPage NodeUrl.parse c Site.axios_get Site.cheerio 3 Site.home
       (seedState c) = Settled (seedState c).
Proof.
  intros c. split; [reflexivity|].
  apply (exhausted_budget_ends_the_crawl NodeUrl.parse c Site.axios_get
           Site.cheerio 2 (fun _ st => Settled st) Site.home [] false
           (seedState c)).
  reflexivity.
Defined.

(** X7: "/about" and, later in the list, its absolute spelling. *)
Lemma repeated_candidate_is_dropped_witness :
  let c := siteCrawler DEFAULT_OPTIONS in
  let scan := scanPage NodeUrl.parse c Site.axios_get Site.cheerio 2 in
  isRoot (Some "/about"%string) = false
  /\ cleanURL NodeUrl.parse c (Some "http://a.test/about"%string)
     = cleanURL NodeUrl.parse c (Some "/about"%string)
  /\ selectorLoop NodeUrl.parse c Site.axios_get scan true
       [Some "/about"; Some "/gone"; Some "http://a.test/about"]%string
       (seedState c)
     = selectorLoop NodeUrl.parse c Site.axios_get scan true
         [Some "/about"; Some "/gone"]%string (seedState c).
Proof.
  intros c scan. split; [reflexivity|]. split; [reflexivity|].
  apply (repeated_candidate_is_dropped NodeUrl.parse c Site.axios_get
           Site.cheerio 2 true [] (Some "/about"%string)
           [Some "/gone"%string] (Some "http://a.test/about"%string) []
           (seedState c)); reflexivity.
Defined.

(** X9: the image of the seed page, an asset, is scanned like a page. *)
Lemma recorded_body_is_always_scanned_witness :
  let c := siteCrawler (mkOptions 10 true) in
  let scan := scanPage NodeUrl.parse c Site.axios_get Site.cheerio 2 in
  let u := "http://a.test/logo.png"%string in
  let r := mkResponse 200 (Some "3"%string) Site.logo in
  currentDepth (seedState c) <= maxDepth (CRAWLER_OPTIONS c)
  /\ atMaxDepth c (seedState c) = false
  /\ isRoot (Some "/logo.png"%string) = false
  /\ cleanURL NodeUrl.parse c (Some "/logo.png"%string) = Some u
  /\ admissible (Some u) (seedState c) = true
  /\ Site.axios_get 1 u = Reply r
  /\ isSuccessResponse (Reply r) = true
  /\ selectorLoop NodeUrl.parse c Site.axios_get scan false
       [Some "/logo.png"%string] (seedState c)
     = do st' <- scan Site.logo (visit Site.axios_get u false (seedState c)) ;;
       Settled st'.
Proof.
  intros c scan u r.
  do 7 (split; [first [reflexivity | simpl; lia]|]).
  assert (Hd : currentDepth (seedState c) <= maxDepth (CRAWLER_OPTIONS c))
    by (simpl; lia).
  destruct (recorded_body_is_always_scanned NodeUrl.parse c Site.axios_get
              scan false (Some "/logo.png"%string) [] (seedState c) u r
              Hd eq_refl eq_refl eq_refl eq_refl eq_refl eq_refl) as [H _].
  exact H.
Defined.

(** X10: the page "/about", delivered with its Content-Length, and the
    seed page, delivered without. *)
Lemma recorded_sizes_witness :
  downloadSize (mkResponse 200 (Some "30"%string) Site.about)
  = Some (numberOfZ 30)
  /\ downloadSize (mkResponse 200 None Site.home) = Some (numberOfZ 124)
  /\ downloadSize (mkResponse 200 (Some "30"%string) Site.document)
     = Some (numberOfZ 30)
  /\ downloadSize (mkResponse 200 None Site.document) = None
  /\ toNumber (Some "30"%string) = numberOfZ 30.
Proof.
  pose proof (recorded_sizes NodeUrl.parse (siteCrawler DEFAULT_OPTIONS)
                Site.axios_get Site.cheerio 3) as H.
  destruct (H (mkResponse 200 (Some "30"%string) Site.about))
    as [H1 [_ [H3 _]]].
  destruct (H (mkResponse 200 None Site.home)) as [H2 _].
  destruct (H (mkResponse 200 (Some "30"%string) Site.document))
    as [_ [H4 _]].
  destruct (H (mkResponse 200 None Site.document)) as [_ [H5 _]].
  split; [exact (H1 _ eq_refl)|]. split; [exact (H2 _ eq_refl)|].
  split; [exact (H4 _ eq_refl)|]. split; [exact (H5 _ eq_refl)|].
  apply (H3 (chars "30")); [discriminate | reflexivity | reflexivity].
Defined.



(** X13: "a.test/index.html", "/index.html" and the seed itself. *)
Lemma constructor_needs_a_protocol_witness :
  newCrawler NodeUrl.parse "a.test/index.html" None = None
  /\ newCrawler NodeUrl.parse "/index.html" None = None
  /\ newCrawler NodeUrl.parse "http://a.test/index.html" None
     = Some (mkCrawler "http://a.test/index.html" "a.test"
               (Some "http:"%string) None DEFAULT_OPTIONS).
Proof.
  apply (constructor_needs_a_protocol (chars "a.test") (chars "/index.html")
           None).
  - discriminate.
  - reflexivity.
  - simpl. lia.
  - reflexivity.
  - right. eexists. reflexivity.
Defined.





End MoreSiteFacts.
